(** * Redux-Toolkit-POC: slices, selectors and the retrying base query

    A shallow embedding of the reducers of [todoSlice.js] and [userSlice.js],
    of the derived-state selectors of [selectors.js] and of
    [baseQueryWithRetry] of [apiSlice.js], with the properties the
    specification states about them.

    - numbers that are identifiers, counts and page numbers are integers ([Z]);
    - a string is a sequence of code units below 256 (the Latin-1 block), so
      that [toLowerCase] and the ordering of strings are those of JavaScript
      on these strings;
    - [undefined] and [null] are [None];
    - an array is a [list]; a reducer written against an Immer draft is the
      function from the state before to the state after. *)

From Stdlib Require Import List ZArith String Ascii Bool Lia Arith Permutation.
From Stdlib Require Floats Uint63.
From Stdlib Require Import DecimalString Sorted.
From Stdlib Require OrderedTypeEx.
Import ListNotations.

(** ** The JavaScript runtime functions the sources call *)
Module JS.

#[local] Open Scope N_scope.

(** Lower-case counterpart of a code unit below 256: A-Z, and the capital
    letters U+00C0 to U+00DE except the multiplication sign U+00D7. *)
Definition lowerCode (n : N) : N :=
  if ((65 <=? n) && (n <=? 90))
     || ((192 <=? n) && (n <=? 222) && negb (n =? 215))
  then n + 32 else n.

Definition toLowerChar (c : ascii) : ascii := ascii_of_N (lowerCode (N_of_ascii c)).

(** [String.prototype.toLowerCase] on a string of code units below 256:
    every code unit is mapped by itself. (The mappings of the full function
    that depend on the neighbours of a letter, as the one of the final
    sigma, concern code units above 255, which these strings do not
    hold.) *)
Fixpoint toLowerCase (s : string) : string :=
  match s with
  | EmptyString => EmptyString
  | String c rest => String (toLowerChar c) (toLowerCase rest)
  end.

(** [sub] occurs at the very start of [s]. *)
Fixpoint startsWith (s sub : string) : bool :=
  match sub, s with
  | EmptyString, _ => true
  | String _ _, EmptyString => false
  | String a sub', String b s' => Ascii.eqb a b && startsWith s' sub'
  end.

(** [String.prototype.includes]: [sub] occurs somewhere in [s]. *)
Fixpoint includes (s sub : string) : bool :=
  startsWith s sub ||
  match s with
  | EmptyString => false
  | String _ s' => includes s' sub
  end.

(** The relational operator [a > b] on two strings: code units compared
    from the left. *)
Definition strGt (a b : string) : bool :=
  match String.compare a b with Gt => true | _ => false end.

Definition strLt (a b : string) : bool :=
  match String.compare a b with Lt => true | _ => false end.

(** [v || d] where [v] is a string, [undefined] or [null] and [d] a string. *)
Definition orDefault (v : option string) (d : string) : string :=
  match v with
  | Some (String c rest) => String c rest
  | _ => d
  end.

#[local] Open Scope Z_scope.

(** [new Date(n)] for a number [n]: the time value is [n] when it is within
    8.64e15 milliseconds of the epoch and NaN (an invalid date) otherwise. *)
Definition newDate (n : Z) : option Z :=
  if Z.abs n <=? 8640000000000000 then Some n else None.

(** [a > b] and [a < b] on two dates: their time values are compared as
    numbers, and every comparison with NaN is false. *)
Definition dateGt (a b : option Z) : bool :=
  match a, b with
  | Some x, Some y => x >? y
  | _, _ => false
  end.

Definition dateLt (a b : option Z) : bool :=
  match a, b with
  | Some x, Some y => x <? y
  | _, _ => false
  end.

(** [Array.prototype.slice(start, end)]: a negative index counts from the
    end of the array, and both indices are brought into [0, length]. *)
Definition relativeIndex (len i : Z) : Z :=
  if i <? 0 then Z.max (len + i) 0 else Z.min i len.

Definition slice {A} (l : list A) (start stop : Z) : list A :=
  let len := Z.of_nat (List.length l) in
  let k := relativeIndex len start in
  let final := relativeIndex len stop in
  firstn (Z.to_nat (Z.max (final - k) 0)) (skipn (Z.to_nat k) l).

(** [Array.prototype.findIndex] for a found element: [find] returns the
    element itself, a reference into the array at this position. *)
Fixpoint findIndex {A} (p : A -> bool) (l : list A) : option nat :=
  match l with
  | [] => None
  | x :: rest => if p x then Some O else option_map S (findIndex p rest)
  end.

(** Assignment through the reference at position [i]. *)
Fixpoint updateAt {A} (i : nat) (f : A -> A) (l : list A) : list A :=
  match l, i with
  | [], _ => []
  | x :: rest, O => f x :: rest
  | x :: rest, S j => x :: updateAt j f rest
  end.

(** [String(n)] for an integer [n], in a template literal or as a
    parameter of a URL: its decimal digits, after a minus sign when it is
    negative (an integer below 10^21 in size is printed so). *)
Definition numberToString (n : Z) : string :=
  NilZero.string_of_int (Z.to_int n).

#[local] Open Scope N_scope.

(** The white space and line ends among the code units below 256: TAB, LF,
    VT, FF, CR, the space and the no-break space. *)
Definition isWhiteSpace (c : ascii) : bool :=
  let n := N_of_ascii c in
  ((9 <=? n) && (n <=? 13)) || (n =? 32) || (n =? 160).

Fixpoint trimStart (s : string) : string :=
  match s with
  | EmptyString => EmptyString
  | String c rest => if isWhiteSpace c then trimStart rest else s
  end.

Fixpoint trimEnd (s : string) : string :=
  match s with
  | EmptyString => EmptyString
  | String c rest =>
      match trimEnd rest with
      | EmptyString => if isWhiteSpace c then EmptyString else String c EmptyString
      | kept => String c kept
      end
  end.

(** [String.prototype.trim]. *)
Definition trim (s : string) : string := trimEnd (trimStart s).

End JS.

(** ** features/todoSlice.js *)
Module TodoSlice.

#[local] Open Scope Z_scope.

Record Todo := mkTodo {
  id : Z;
  title : string;
  completed : bool;
  userId : Z
}.

Inductive Status := idle | loading | succeeded | failed.

Record State := mkState {
  list : list Todo;
  status : Status;
  error : option string
}.

Definition initialState : State := mkState [] idle None.

(** [deleteTodo]: [state.list = state.list.filter(todo => todo.id !== action.payload)]. *)
Definition deleteTodo (state : State) (payload : Z) : State :=
  mkState (filter (fun todo => negb (id todo =? payload)) (list state))
          (status state) (error state).

Definition flipCompleted (todo : Todo) : Todo :=
  mkTodo (id todo) (title todo) (negb (completed todo)) (userId todo).

(** [toggleTodo]: the first todo with the given id, when there is one, gets
    its [completed] flag negated in place. *)
Definition toggleTodo (state : State) (payload : Z) : State :=
  match JS.findIndex (fun todo => id todo =? payload) (list state) with
  | Some i => mkState (JS.updateAt i flipCompleted (list state))
                      (status state) (error state)
  | None => state
  end.

Definition clearError (state : State) : State :=
  mkState (list state) (status state) None.

(** The three actions of the [fetchTodos] thunk as the reducer sees them.
    The payload of [rejected] is the value given to [rejectWithValue], and
    [undefined] when the thunk was rejected without one. *)
Inductive FetchAction :=
| pending
| fulfilled (payload : Datatypes.list Todo)
| rejected (payload : option string).

Definition extraReducers (state : State) (action : FetchAction) : State :=
  match action with
  | pending => mkState (list state) loading None
  | fulfilled payload => mkState payload succeeded (error state)
  | rejected payload =>
      mkState (list state) failed
              (Some (JS.orDefault payload "Failed to fetch todos"))
  end.

(** [addTodo]: a new todo, not completed, of user 1, goes to the front of
    the list; its id is what [Date.now()] reads, [now]. *)
Definition addTodo (state : State) (payload : string) (now : Z) : State :=
  let newTodo := mkTodo now payload false 1 in
  mkState (newTodo :: list state) (status state) (error state).

(** What the request of [fetchTodos] comes to: [fetch] fails with an error
    that has a message, or there is a response, which is [ok] or not and
    whose [json()] gives the todos or fails with an error that has a
    message. *)
Inductive FetchOutcome :=
| networkError (message : string)
| response (ok : bool) (json : string + Datatypes.list Todo).

(** The payload creator of [fetchTodos], as the action that the thunk
    dispatches when it is done. *)
Definition fetchTodos (outcome : FetchOutcome) : FetchAction :=
  match outcome with
  | networkError message => rejected (Some message)
  | response false _ => rejected (Some "Network response was not ok"%string)
  | response true (inl message) => rejected (Some message)
  | response true (inr todos) => fulfilled todos
  end.

(** [dispatch(fetchTodos())] from start to end: [pending] is reduced, then
    the action the thunk ends with. *)
Definition dispatchFetchTodos (state : State) (outcome : FetchOutcome) : State :=
  extraReducers (extraReducers state pending) (fetchTodos outcome).

End TodoSlice.

(** ** features/userSlice.js *)
Module UserSlice.

#[local] Open Scope Z_scope.

Record User := mkUser {
  id : Z;
  username : string;
  email : string;
  name : string;
  role : string
}.

Record State := mkState {
  userData : option User;
  token : option string;
  isAuthenticated : bool;
  isLoading : bool;
  error : option string;
  loginAttempts : Z;
  lastLoginTime : option string
}.

Definition initialState : State :=
  mkState None None false false None 0 None.

(** [expireToken]. *)
Definition expireToken (state : State) : State :=
  mkState None None false (isLoading state) (error state)
          (loginAttempts state) (lastLoginTime state).

(** The actions of the [fetchUserProfile] thunk as the reducer sees them. *)
Inductive ProfileAction :=
| pending
| fulfilled (payload : option User)
| rejected (payload : option string).

(** The three [fetchUserProfile] cases of [extraReducers]. The result is
    [None] when the case reducer throws: [action.payload.includes] is a
    TypeError on a payload that is [undefined]. The assignments to
    [isLoading] and [error] made before the throw are made on a draft that
    is then dropped. *)
Definition fetchUserProfileReducer (state : State) (action : ProfileAction)
  : option State :=
  match action with
  | pending =>
      Some (mkState (userData state) (token state) (isAuthenticated state)
                    true None (loginAttempts state) (lastLoginTime state))
  | fulfilled payload =>
      Some (mkState payload (token state) (isAuthenticated state)
                    false None (loginAttempts state) (lastLoginTime state))
  | rejected None => None
  | rejected (Some message) =>
      let state1 :=
        mkState (userData state) (token state) (isAuthenticated state)
                false (Some message) (loginAttempts state) (lastLoginTime state) in
      if JS.includes message "token"
      then Some (mkState None None false
                         (isLoading state1) (error state1)
                         (loginAttempts state1) (lastLoginTime state1))
      else Some state1
  end.

Definition mockUsers : list User :=
  [ mkUser 1 "john_doe" "john@example.com" "John Doe" "admin";
    mkUser 2 "jane_smith" "jane@example.com" "Jane Smith" "user";
    mkUser 3 "bob_wilson" "bob@example.com" "Bob Wilson" "user" ].

(** The payload of [updateProfile], for the fields that a user has: a
    field that the payload does not have is [None]. *)
Record ProfileUpdate := mkProfileUpdate {
  newId : option Z;
  newUsername : option string;
  newEmail : option string;
  newName : option string;
  newRole : option string
}.

Definition orKeep {A : Type} (update : option A) (current : A) : A :=
  match update with
  | Some value => value
  | None => current
  end.

(** [clearError]. *)
Definition clearError (state : State) : State :=
  mkState (userData state) (token state) (isAuthenticated state)
          (isLoading state) None (loginAttempts state) (lastLoginTime state).

(** [updateProfile]: [{ ...state.userData, ...action.payload }] when there
    is a user, and nothing otherwise. *)
Definition updateProfile (state : State) (payload : ProfileUpdate) : State :=
  match userData state with
  | Some user =>
      mkState (Some (mkUser (orKeep (newId payload) (id user))
                            (orKeep (newUsername payload) (username user))
                            (orKeep (newEmail payload) (email user))
                            (orKeep (newName payload) (name user))
                            (orKeep (newRole payload) (role user))))
              (token state) (isAuthenticated state) (isLoading state)
              (error state) (loginAttempts state) (lastLoginTime state)
  | None => state
  end.

(** [resetLoginAttempts]. *)
Definition resetLoginAttempts (state : State) : State :=
  mkState (userData state) (token state) (isAuthenticated state)
          (isLoading state) (error state) 0 (lastLoginTime state).

(** The actions of the [loginUser] and [logoutUser] thunks. *)
Inductive LoginAction :=
| loginPending
| loginFulfilled (user : User) (newToken : string)
| loginRejected (payload : option string).

Inductive LogoutAction :=
| logoutPending
| logoutFulfilled
| logoutRejected (payload : option string).

(** The three [loginUser] cases of [extraReducers]; [isoNow] is what
    [new Date().toISOString()] gives when the case is reduced. *)
Definition loginUserReducer (state : State) (action : LoginAction)
  (isoNow : string) : State :=
  match action with
  | loginPending =>
      mkState (userData state) (token state) (isAuthenticated state)
              true None (loginAttempts state) (lastLoginTime state)
  | loginFulfilled user newToken =>
      mkState (Some user) (Some newToken) true false None 0 (Some isoNow)
  | loginRejected payload =>
      mkState None None false false payload
              (loginAttempts state + 1) (lastLoginTime state)
  end.

(** The three [logoutUser] cases. *)
Definition logoutUserReducer (state : State) (action : LogoutAction) : State :=
  match action with
  | logoutPending =>
      mkState (userData state) (token state) (isAuthenticated state)
              true (error state) (loginAttempts state) (lastLoginTime state)
  | logoutFulfilled => mkState None None false false None 0 None
  | logoutRejected payload =>
      mkState (userData state) (token state) (isAuthenticated state)
              false payload (loginAttempts state) (lastLoginTime state)
  end.

(** Every action that the slice reduces. *)
Inductive Action :=
| doClearError
| doUpdateProfile (payload : ProfileUpdate)
| doResetLoginAttempts
| doExpireToken
| doLogin (action : LoginAction)
| doLogout (action : LogoutAction)
| doFetchProfile (action : ProfileAction).

(** The reducer of the slice; [None] when a case reducer throws. *)
Definition reducer (state : State) (action : Action) (isoNow : string)
  : option State :=
  match action with
  | doClearError => Some (clearError state)
  | doUpdateProfile payload => Some (updateProfile state payload)
  | doResetLoginAttempts => Some (resetLoginAttempts state)
  | doExpireToken => Some (expireToken state)
  | doLogin action => Some (loginUserReducer state action isoNow)
  | doLogout action => Some (logoutUserReducer state action)
  | doFetchProfile action => fetchUserProfileReducer state action
  end.

(** The state of the store after an action: the state it had when the
    reducer throws. *)
Definition dispatch (state : State) (step : Action * string) : State :=
  match reducer state (fst step) (snd step) with
  | Some next => next
  | None => state
  end.

(** The payload creator of [loginUser], as the action that the thunk ends
    with; [now] is what [Date.now()] reads when the token is made. *)
Definition loginUser (givenUsername givenPassword : string) (now : Z)
  : LoginAction :=
  match find (fun u => String.eqb (username u) givenUsername) mockUsers with
  | Some user =>
      if negb (String.eqb givenPassword "password")
      then loginRejected (Some "Invalid credentials"%string)
      else loginFulfilled user
             ("mock_token_" ++ JS.numberToString (id user) ++ "_"
              ++ JS.numberToString now)%string
  | None => loginRejected (Some "Invalid credentials"%string)
  end.

(** [!user.token]. *)
Definition noToken (state : State) : bool :=
  match token state with
  | Some (String _ _) => false
  | _ => true
  end.

(** The payload creator of [fetchUserProfile], run on the state that
    [getState()] returns. *)
Definition fetchUserProfile (state : State) : ProfileAction :=
  if noToken state
  then rejected (Some "No authentication token"%string)
  else fulfilled (userData state).

(** [dispatch(fetchUserProfile())] from start to end, when nothing else is
    dispatched in between: [pending] is reduced, the payload creator reads
    the state, and the action it ends with is reduced. *)
Definition dispatchFetchUserProfile (state : State) : State :=
  let started := dispatch state (doFetchProfile pending, EmptyString) in
  dispatch started (doFetchProfile (fetchUserProfile started), EmptyString).

End UserSlice.

(** ** features/apiSlice.js: the base query with its retry *)
Module ApiSlice.

#[local] Open Scope Z_scope.

(** The [status] of the error object of [fetchBaseQuery]: the HTTP status of
    a response outside 2xx, or one of its four tags. *)
Inductive ErrorStatus :=
| HTTP (code : Z)
| FETCH_ERROR
| PARSING_ERROR
| TIMEOUT_ERROR
| CUSTOM_ERROR.

Record QueryError := mkQueryError {
  status : ErrorStatus;
  detail : string
}.

Section BaseQuery.

(** What a request is made of ([args], [api] and [extraOptions] together)
    and what a successful response carries. *)
Variables Args Data : Type.

(** [{ data }] or [{ error }]. *)
Inductive QueryResult :=
| data (d : Data)
| error (e : QueryError).

(** The remote end: its response to the [n]-th request made since the start
    of the observation, given what was asked. *)
Variable respond : nat -> Args -> QueryResult.

(** A computation that awaits requests: it reads and extends the log of the
    requests made so far. *)
Definition Async (R : Type) : Type := list Args -> R * list Args.

Definition ret {R} (r : R) : Async R := fun log => (r, log).

Definition bind {R T} (m : Async R) (k : R -> Async T) : Async T :=
  fun log => let (r, log') := m log in k r log'.

#[local] Notation "'await' x <- m ;; k" := (bind m (fun x => k))
  (at level 61, x name, m at next level, right associativity).

(** The query built by [fetchBaseQuery]: one request to the remote end. *)
Definition baseQuery (args : Args) : Async QueryResult :=
  fun log => (respond (List.length log) args, log ++ [args]).

(** [result.error && result.error.status === 'FETCH_ERROR']. *)
Definition isFetchError (result : QueryResult) : bool :=
  match result with
  | error e => match status e with FETCH_ERROR => true | _ => false end
  | data _ => false
  end.

Definition baseQueryWithRetry (args : Args) : Async QueryResult :=
  await result <- baseQuery args ;;
  if isFetchError result
  then await retried <- baseQuery args ;; ret retried
  else ret result.

End BaseQuery.

Arguments data {Data} d.
Arguments error {Data} e.
Arguments isFetchError {Data} result.
Arguments baseQuery {Args Data} respond args _.
Arguments baseQueryWithRetry {Args Data} respond args _.

(** *** The [Headers] object given to [prepareHeaders]

    [Headers.prototype.set] as the Fetch standard defines it, for a
    [Headers] object without a guard (the one [fetchBaseQuery] creates with
    [new Headers(...)]). *)

(** The headers of a request: the pairs of a name and a value, in order. *)
Definition Headers := list (string * string).

Definition code (c : ascii) : N := N_of_ascii c.

(** A-Z to a-z, every other byte as it is. *)
Definition byteLowerChar (c : ascii) : ascii :=
  if (65 <=? code c)%N && (code c <=? 90)%N
  then ascii_of_N (code c + 32) else c.

Fixpoint byteLowercase (s : string) : string :=
  match s with
  | EmptyString => EmptyString
  | String c rest => String (byteLowerChar c) (byteLowercase rest)
  end.

(** Two names are the same header when their byte-lowercased forms are. *)
Definition sameName (a b : string) : bool :=
  String.eqb (byteLowercase a) (byteLowercase b).

(** HTTP newline bytes (LF, CR), HTTP tab or space bytes, and the HTTP
    whitespace bytes, which are both. *)
Definition isNewline (c : ascii) : bool :=
  ((code c =? 10) || (code c =? 13))%N.

Definition isTabOrSpace (c : ascii) : bool :=
  ((code c =? 9) || (code c =? 32))%N.

Definition isWhitespace (c : ascii) : bool := isNewline c || isTabOrSpace c.

Fixpoint stripLeading (s : string) : string :=
  match s with
  | EmptyString => EmptyString
  | String c rest => if isWhitespace c then stripLeading rest else s
  end.

Fixpoint stripTrailing (s : string) : string :=
  match s with
  | EmptyString => EmptyString
  | String c rest =>
      match stripTrailing rest with
      | EmptyString => if isWhitespace c then EmptyString else String c EmptyString
      | String _ _ as kept => String c kept
      end
  end.

(** To normalize a potential value: remove the HTTP whitespace bytes at its
    two ends. *)
Definition normalize (value : string) : string :=
  stripTrailing (stripLeading value).

Fixpoint allChars (p : ascii -> bool) (s : string) : bool :=
  match s with
  | EmptyString => true
  | String c rest => p c && allChars p rest
  end.

Definition firstChar (s : string) : option ascii :=
  match s with
  | EmptyString => None
  | String c _ => Some c
  end.

Fixpoint lastChar (s : string) : option ascii :=
  match s with
  | EmptyString => None
  | String c EmptyString => Some c
  | String _ rest => lastChar rest
  end.

(** The characters of a token: letters, digits and
    [! # $ % & ' * + - . ^ _ ` | ~]. *)
Definition isTokenChar (c : ascii) : bool :=
  let n := code c in
  ((n =? 33) || ((35 <=? n) && (n <=? 39)) || (n =? 42) || (n =? 43)
   || (n =? 45) || (n =? 46) || ((48 <=? n) && (n <=? 57))
   || ((65 <=? n) && (n <=? 90)) || ((94 <=? n) && (n <=? 122))
   || (n =? 124) || (n =? 126))%N.

(** A header name is a token of one character at least. *)
Definition isHeaderName (name : string) : bool :=
  match name with
  | EmptyString => false
  | String _ _ => allChars isTokenChar name
  end.

Definition startsOrEndsWith (p : ascii -> bool) (s : string) : bool :=
  match firstChar s, lastChar s with
  | Some first, Some last => p first || p last
  | _, _ => false
  end.

(** A header value has no HTTP tab or space byte at either end, and holds
    no NUL and no HTTP newline byte. *)
Definition isHeaderValue (value : string) : bool :=
  negb (startsOrEndsWith isTabOrSpace value)
  && allChars (fun c => negb ((code c =? 0)%N || isNewline c)) value.

Definition removeName (name : string) (headers : Headers) : Headers :=
  filter (fun header => negb (sameName (fst header) name)) headers.

(** To set a header in a list of headers: the first header of that name
    gets the value and the other ones of that name go; without one, the
    header is added at the end. *)
Fixpoint setInList (headers : Headers) (name value : string) : Headers :=
  match headers with
  | [] => [(name, value)]
  | (n, v) :: rest =>
      if sameName n name
      then (n, value) :: removeName name rest
      else (n, v) :: setInList rest name value
  end.

(** [headers.set(name, value)]: the value is normalized; a name that is not
    a header name or a normalized value that is not a header value is a
    [TypeError] ([None]); otherwise the header is set in the list. *)
Definition setHeader (headers : Headers) (name value : string) : option Headers :=
  let value := normalize value in
  if isHeaderName name && isHeaderValue value
  then Some (setInList headers name value)
  else None.

(** The values that [headers.get(name)] joins; there is none when it
    returns [null]. *)
Definition valuesOf (headers : Headers) (name : string) : list string :=
  map snd (filter (fun header => sameName (fst header) name) headers).

(** [prepareHeaders] of the base query; [token] is [getState().user.token].
    [None] is the [TypeError] of a [headers.set] that throws. *)
Definition prepareHeaders (headers : Headers) (token : option string)
  : option Headers :=
  match
    match token with
    | Some (String _ _ as t) => setHeader headers "authorization" ("Bearer " ++ t)
    | _ => Some headers
    end
  with
  | None => None
  | Some headers =>
      match setHeader headers "content-type" "application/json" with
      | None => None
      | Some headers => setHeader headers "accept" "application/json"
      end
  end.

End ApiSlice.

(** ** app/store.js: the error middleware *)
Module Store.

Section ErrorMiddleware.

Variables Action Value Error : Type.

(** How a call ends: it returns a value or it throws. *)
Inductive Completion :=
| returned (value : Value)
| thrown (error : Error).

(** [next]: the rest of the chain with the reducer at its end. What its
    [n]-th call comes to may depend on what the calls before it did. *)
Variable next : nat -> Action -> Completion.

(** A computation that calls [next]: it extends the list of the actions
    passed to it so far. *)
Definition Calls (R : Type) : Type := list Action -> R * list Action.

Definition callNext (action : Action) : Calls Completion :=
  fun calls => (next (List.length calls) action, calls ++ [action]).

(** [errorMiddleware]: [try { return next(action) } catch (error)
    { console.error(...); return next(action) }]. *)
Definition errorMiddleware (action : Action) : Calls Completion :=
  fun calls =>
    let (first, calls') := callNext action calls in
    match first with
    | returned value => (returned value, calls')
    | thrown _ => callNext action calls'
    end.

End ErrorMiddleware.

Arguments returned {Value Error} value.
Arguments thrown {Value Error} error.
Arguments callNext {Action Value Error} next action _.
Arguments errorMiddleware {Action Value Error} next action _.

End Store.

(** ** [Array.prototype.sort]

    ECMAScript fixes the result of [sort] only for a comparator that is
    consistent (in particular [comparefn a a = 0]); for any other the order
    of the result is left to the engine. Two engines are modelled, on the
    arrays on which each of them runs the procedure given here. *)
Module ArraySort.

#[local] Open Scope Z_scope.

Section Procedures.

Context {A : Type}.
Variable comparefn : A -> A -> Z.

(** *** TimSort on an array of fewer than 64 elements (V8)

    The minimum run length is then the length of the array: the run that
    starts the array is found, and reversed when it descends, and every
    later element is put in its place by a binary search. Longer arrays are
    cut in several runs that are merged; that part is not modelled. *)

(** The loop of [CountAndMakeRun]: how far the run goes on after
    [previous]; the elements of the run and the elements left. *)
Fixpoint extendRun (descending : bool) (previous : A) (rest : list A)
  : list A * list A :=
  match rest with
  | [] => ([], [])
  | current :: rest' =>
      let order := comparefn current previous in
      if (if descending then order >=? 0 else order <? 0)
      then ([], rest)
      else let (run, remaining) := extendRun descending current rest' in
           (current :: run, remaining)
  end.

Definition countAndMakeRun (l : list A) : list A * list A :=
  match l with
  | elementHigh :: elementLow :: rest =>
      let isDescending := comparefn elementLow elementHigh <? 0 in
      let (run, remaining) := extendRun isDescending elementLow rest in
      let whole := elementHigh :: elementLow :: run in
      (if isDescending then rev whole else whole, remaining)
  | _ => (l, [])
  end.

(** The binary search of [BinaryInsertionSort] for the place of [pivot] in
    the sorted part, between [left] and [right]. The loop runs while
    [left < right]; [fuel] bounds its iterations. *)
Fixpoint searchPlace (fuel : nat) (sorted : list A) (pivot : A)
  (left right : nat) : nat :=
  match fuel with
  | O => left
  | S fuel' =>
      if (left <? right)%nat then
        let mid := (left + (right - left) / 2)%nat in
        match nth_error sorted mid with
        | Some element =>
            if comparefn pivot element <? 0
            then searchPlace fuel' sorted pivot left mid
            else searchPlace fuel' sorted pivot (mid + 1)%nat right
        | None => left
        end
      else left
  end.

Definition insertAt (place : nat) (pivot : A) (sorted : list A) : list A :=
  firstn place sorted ++ pivot :: skipn place sorted.

Definition binaryInsert (sorted : list A) (pivot : A) : list A :=
  let n := List.length sorted in
  insertAt (searchPlace n sorted pivot 0 n) pivot sorted.

Definition binaryInsertionSort (run remaining : list A) : list A :=
  fold_left binaryInsert remaining run.

Definition timSortShort (l : list A) : list A :=
  let (run, remaining) := countAndMakeRun l in
  binaryInsertionSort run remaining.

(** *** Insertion sort (SpiderMonkey on a short array)

    Every element goes down from the right while the element below it
    compares greater: [if (comparefn(swap, item) <= 0) break]. The sorted
    part is kept with its last element first. *)
Fixpoint insertDown (item : A) (below : list A) : list A :=
  match below with
  | [] => [item]
  | swap :: below' =>
      if comparefn swap item <=? 0
      then item :: swap :: below'
      else swap :: insertDown item below'
  end.

Definition insertionSort (l : list A) : list A :=
  rev (fold_left (fun sorted item => insertDown item sorted) l []).

(** The binary search ends within as many steps as the interval is wide:
    more fuel does not change its result. *)
Lemma searchPlace_fuel (fuel : nat) :
  forall sorted pivot left right extra,
    (right - left <= fuel)%nat ->
    searchPlace (fuel + extra) sorted pivot left right
    = searchPlace fuel sorted pivot left right.
Proof.
  induction fuel as [|fuel IH]; intros sorted pivot left right extra Hw.
  - destruct extra as [|extra]; cbn [searchPlace Nat.add]; [reflexivity|].
    destruct (Nat.ltb_spec left right); [lia | reflexivity].
  - cbn [searchPlace Nat.add].
    destruct (Nat.ltb_spec left right) as [Hlt|]; [|reflexivity].
    assert (Hhalf : ((right - left) / 2 < right - left)%nat)
      by (apply Nat.div_lt; lia).
    destruct (nth_error sorted _); [|reflexivity].
    destruct (comparefn pivot a <? 0); apply IH; lia.
Qed.

Lemma extendRun_app (descending : bool) :
  forall rest previous,
    fst (extendRun descending previous rest)
      ++ snd (extendRun descending previous rest) = rest.
Proof.
  induction rest as [|current rest IH]; intros previous; simpl; [reflexivity|].
  destruct (if descending then _ else _); simpl; [reflexivity|].
  specialize (IH current).
  destruct (extendRun descending current rest) as [run remaining].
  simpl in *. now rewrite IH.
Qed.

Lemma countAndMakeRun_permutation (l : list A) :
  Permutation l (fst (countAndMakeRun l) ++ snd (countAndMakeRun l)).
Proof.
  destruct l as [|high [|low rest]]; simpl; try reflexivity.
  pose proof (extendRun_app (comparefn low high <? 0) rest low) as Happ.
  destruct (extendRun _ low rest) as [run remaining]. simpl in *.
  rewrite <- Happ at 1.
  change (high :: low :: run ++ remaining)
    with ((high :: low :: run) ++ remaining).
  apply Permutation_app_tail.
  destruct (comparefn low high <? 0); [apply Permutation_rev | reflexivity].
Qed.

Lemma insertAt_permutation (place : nat) (pivot : A) (sorted : list A) :
  Permutation (pivot :: sorted) (insertAt place pivot sorted).
Proof.
  unfold insertAt. rewrite <- (firstn_skipn place sorted) at 1.
  apply Permutation_middle.
Qed.

Lemma binaryInsertionSort_permutation (remaining : list A) :
  forall run, Permutation (run ++ remaining) (binaryInsertionSort run remaining).
Proof.
  unfold binaryInsertionSort.
  induction remaining as [|pivot remaining IH]; intros run; simpl.
  - now rewrite app_nil_r.
  - rewrite <- IH. unfold binaryInsert.
    rewrite <- insertAt_permutation.
    symmetry. apply Permutation_middle.
Qed.

Lemma timSortShort_permutation (l : list A) : Permutation l (timSortShort l).
Proof.
  unfold timSortShort.
  pose proof (countAndMakeRun_permutation l) as Hrun.
  destruct (countAndMakeRun l) as [run remaining]. simpl in Hrun.
  rewrite Hrun at 1. apply binaryInsertionSort_permutation.
Qed.

Lemma insertDown_permutation (item : A) (below : list A) :
  Permutation (item :: below) (insertDown item below).
Proof.
  induction below as [|swap below IH]; simpl; [reflexivity|].
  destruct (comparefn swap item <=? 0); [reflexivity|].
  rewrite perm_swap. now apply perm_skip.
Qed.

Lemma insertionSort_permutation (l : list A) : Permutation l (insertionSort l).
Proof.
  unfold insertionSort. rewrite <- Permutation_rev.
  rewrite <- (app_nil_l l) at 1.
  change (@nil A) with (rev (@nil A)) at 1.
  generalize (@nil A) as sorted.
  induction l as [|item l IH]; intros sorted; simpl.
  - rewrite app_nil_r. symmetry. apply Permutation_rev.
  - rewrite <- IH. rewrite <- Permutation_rev.
    rewrite <- insertDown_permutation. rewrite <- Permutation_rev.
    symmetry. apply Permutation_middle.
Qed.

End Procedures.

(** An engine: its [sort], which at least reorders the array it is given,
    whatever the comparator. *)
Record Engine := mkEngine {
  sort : forall A : Type, (A -> A -> Z) -> list A -> list A;
  sort_permutation :
    forall (A : Type) (comparefn : A -> A -> Z) (l : list A),
      Permutation l (sort A comparefn l)
}.

Arguments sort e {A} comparefn l : rename.

Definition v8 : Engine :=
  mkEngine (@timSortShort) (@timSortShort_permutation).

Definition spiderMonkey : Engine :=
  mkEngine (@insertionSort) (@insertionSort_permutation).

End ArraySort.

(** ** Numbers: the doubles that the selectors compute with

    A finite double that is not negative is [mant * 2 ^ expo]. An
    operation gives the double nearest to the exact result, the one with
    the even significand when two are equally near. Doubles below 2^-1022
    and results from 2^1024 on are not modelled: the quotient of two array
    lengths and its product by 100 are far from both. *)
Module Float64.

#[local] Open Scope Z_scope.

Record Double := mkDouble {
  mant : Z;
  expo : Z
}.

(** The largest [k] with [2^k <= num / den], for [num] and [den] positive. *)
Definition floorLog2 (num den : Z) : Z :=
  let k := Z.log2 num - Z.log2 den in
  if (if 0 <=? k then den * 2 ^ k <=? num else den <=? num * 2 ^ (- k))
  then k else k - 1.

(** The integer nearest to [num / den], the even one at a tie. *)
Definition roundHalfEven (num den : Z) : Z :=
  let q := num / den in
  match 2 * (num mod den) ?= den with
  | Lt => q
  | Gt => q + 1
  | Eq => if Z.even q then q else q + 1
  end.

(** The double nearest to [num / den]: a significand of 53 bits. *)
Definition nearest (num den : Z) : Double :=
  if num =? 0 then mkDouble 0 0
  else
    let e := floorLog2 num den - 52 in
    mkDouble (if 0 <=? e
              then roundHalfEven num (den * 2 ^ e)
              else roundHalfEven (num * 2 ^ (- e)) den)
             e.

(** [a / b] on two integers that are doubles as they are, as the lengths
    of arrays are (they are below 2^32). *)
Definition divide (a b : Z) : Double := nearest a b.

(** [x * n] for a double [x] and an integer [n] that is a double. *)
Definition times (x : Double) (n : Z) : Double :=
  if 0 <=? expo x
  then nearest (mant x * n * 2 ^ expo x) 1
  else nearest (mant x * n) (2 ^ (- expo x)).

(** [Math.round]: the nearest integer, the larger one at a tie. *)
Definition MathRound (x : Double) : Z :=
  if 0 <=? expo x
  then mant x * 2 ^ expo x
  else (2 * mant x + 2 ^ (- expo x)) / (2 * 2 ^ (- expo x)).

End Float64.

(** ** features/selectors.js *)
Module Selectors.

#[local] Open Scope Z_scope.

(** *** Todo selectors *)

Definition selectTodos (todos : TodoSlice.State) : list TodoSlice.Todo :=
  TodoSlice.list todos.

Definition selectCompletedTodos (todos : TodoSlice.State) : list TodoSlice.Todo :=
  filter (fun todo => TodoSlice.completed todo) (selectTodos todos).

Definition selectTodosCount (todos : TodoSlice.State) : Z :=
  Z.of_nat (List.length (selectTodos todos)).

Definition selectCompletedTodosCount (todos : TodoSlice.State) : Z :=
  Z.of_nat (List.length (selectCompletedTodos todos)).

(** The result function of [selectTodosCompletionPercentage]:
    [total > 0 ? Math.round((completed / total) * 100) : 0]. *)
Definition completionPercentage (total completed : Z) : Z :=
  if total >? 0
  then Float64.MathRound (Float64.times (Float64.divide completed total) 100)
  else 0.

Definition selectTodosCompletionPercentage (todos : TodoSlice.State) : Z :=
  completionPercentage (selectTodosCount todos) (selectCompletedTodosCount todos).

(** *** Posts selectors *)

Record Post := mkPost {
  id : Z;
  title : string;
  body : string;
  userId : Z
}.

Record Filters := mkFilters {
  search : option string;
  category : string;
  sortBy : string;
  sortOrder : string
}.

Record Pagination := mkPagination {
  currentPage : Z;
  itemsPerPage : Z
}.

(** The part of [state.posts] that the selectors below read. *)
Record PostsState := mkPostsState {
  posts : list Post;
  filters : Filters;
  pagination : Pagination
}.

Definition selectPosts (state : PostsState) : list Post := posts state.
Definition selectPostsFilters (state : PostsState) : Filters := filters state.
Definition selectPostsPagination (state : PostsState) : Pagination := pagination state.

(** The predicate of the search filter, for [searchLower] already in lower
    case. *)
Definition matchesSearch (searchLower : string) (post : Post) : bool :=
  JS.includes (JS.toLowerCase (title post)) searchLower
  || JS.includes (JS.toLowerCase (body post)) searchLower.

(** What the comparator compares: a string, a number or a date, by
    [filters.sortBy]. *)
Inductive SortValue :=
| text (s : string)
| number (n : Z)
| date (d : option Z).

Definition sortValue (filters : Filters) (post : Post) : SortValue :=
  if String.eqb (sortBy filters) "title" then text (JS.toLowerCase (title post))
  else if String.eqb (sortBy filters) "author" then number (userId post)
  else date (JS.newDate (id post)).

(** [aValue > bValue] and [aValue < bValue]; both values come from the same
    case of the switch. For two dates of which one is invalid (its time
    value is NaN) both comparisons are false. *)
Definition gt (a b : SortValue) : bool :=
  match a, b with
  | text x, text y => JS.strGt x y
  | number x, number y => x >? y
  | date x, date y => JS.dateGt x y
  | _, _ => false
  end.

Definition lt (a b : SortValue) : bool :=
  match a, b with
  | text x, text y => JS.strLt x y
  | number x, number y => x <? y
  | date x, date y => JS.dateLt x y
  | _, _ => false
  end.

(** The comparator given to [filtered.sort]:
    [if (filters.sortOrder === 'asc') return aValue > bValue ? 1 : -1;
     else return aValue < bValue ? 1 : -1].
    A comparison that is false, as every comparison with an invalid date
    is, gives the answer [-1], in either sort order. *)
Definition comparePosts (filters : Filters) (a b : Post) : Z :=
  let aValue := sortValue filters a in
  let bValue := sortValue filters b in
  if String.eqb (sortOrder filters) "asc"
  then (if gt aValue bValue then 1 else (-1))
  else (if lt aValue bValue then 1 else (-1)).

(** The result function of [selectFilteredPosts], on the engine that runs
    it. The category filter has an empty body in the source. *)
Definition filteredPosts (engine : ArraySort.Engine)
  (posts : list Post) (filters : Filters) : list Post :=
  let filtered := posts in
  let filtered :=
    match search filters with
    | Some (String _ _ as term) =>
        let searchLower := JS.toLowerCase term in
        filter (matchesSearch searchLower) filtered
    | _ => filtered
    end in
  ArraySort.sort engine (comparePosts filters) filtered.

Definition selectFilteredPosts (engine : ArraySort.Engine) (state : PostsState)
  : list Post :=
  filteredPosts engine (selectPosts state) (selectPostsFilters state).

(** The result function of [selectPaginatedPosts]. *)
Definition paginatedPosts (filtered : list Post) (pagination : Pagination)
  : list Post :=
  let startIndex := (currentPage pagination - 1) * itemsPerPage pagination in
  let endIndex := startIndex + itemsPerPage pagination in
  JS.slice filtered startIndex endIndex.

Definition selectPaginatedPosts (engine : ArraySort.Engine) (state : PostsState)
  : list Post :=
  paginatedPosts (selectFilteredPosts engine state) (selectPostsPagination state).

(** *** More todo selectors *)

Definition selectPendingTodos (todos : TodoSlice.State) : list TodoSlice.Todo :=
  filter (fun todo => negb (TodoSlice.completed todo)) (selectTodos todos).

Definition selectPendingTodosCount (todos : TodoSlice.State) : Z :=
  Z.of_nat (List.length (selectPendingTodos todos)).

Definition selectTodosByUserId (userId : Z) (todos : TodoSlice.State)
  : list TodoSlice.Todo :=
  filter (fun todo => TodoSlice.userId todo =? userId) (selectTodos todos).

(** *** User selectors *)

(** [user?.role || 'guest']. *)
Definition selectUserRole (user : UserSlice.State) : string :=
  JS.orDefault (option_map UserSlice.role (UserSlice.userData user)) "guest".

Definition selectIsAdmin (user : UserSlice.State) : bool :=
  String.eqb (selectUserRole user) "admin".

(** [user?.name || user?.username || 'Guest']. *)
Definition selectUserDisplayName (user : UserSlice.State) : string :=
  JS.orDefault (option_map UserSlice.name (UserSlice.userData user))
    (JS.orDefault (option_map UserSlice.username (UserSlice.userData user))
       "Guest").

Definition selectCanLogin (user : UserSlice.State) : bool :=
  UserSlice.loginAttempts user <? 3.

Record Permissions := mkPermissions {
  canCreatePosts : bool;
  canEditPosts : bool;
  canDeletePosts : bool;
  canManageUsers : bool;
  canViewAdminPanel : bool
}.

Definition selectUserPermissions (user : UserSlice.State) : Permissions :=
  let isAdmin := selectIsAdmin user in
  let isAuthenticated := UserSlice.isAuthenticated user in
  mkPermissions isAuthenticated isAuthenticated isAdmin isAdmin isAdmin.

(** *** selectDashboardStats: its result function *)

Record DashboardStats := mkDashboardStats {
  totalTodos : Z;
  completedTodos : Z;
  pendingTodos : Z;
  totalPosts : Z;
  draftCount : Z;
  favoritePostsCount : Z;
  completionRate : Z
}.

Definition dashboardStats (totalTodos completedTodos : Z) (posts : list Post)
  (draftCount : Z) (favoritePosts : list Post) : DashboardStats :=
  mkDashboardStats totalTodos completedTodos (totalTodos - completedTodos)
    (Z.of_nat (List.length posts)) draftCount
    (Z.of_nat (List.length favoritePosts))
    (if totalTodos >? 0
     then Float64.MathRound
            (Float64.times (Float64.divide completedTodos totalTodos) 100)
     else 0).

End Selectors.

(** ** features/selectors.js: the selectors on the whole state *)
Module CombinedSelectors.

#[local] Open Scope Z_scope.

(** The slices of the store that these selectors read. *)
Record RootState := mkRootState {
  todos : TodoSlice.State;
  user : UserSlice.State;
  posts : Selectors.PostsState
}.

(** What [createSelectItemById] returns: a todo, a post, the user data
    (which may be [null]), [undefined] when [find] finds nothing, or
    [null] for a type of item it does not know. *)
Inductive Item :=
| todoItem (todo : TodoSlice.Todo)
| postItem (post : Selectors.Post)
| userItem (userData : option UserSlice.User)
| undefinedItem
| nullItem.

Definition createSelectItemById (itemType : string) (id : Z) (state : RootState)
  : Item :=
  if String.eqb itemType "todo" then
    match find (fun todo => TodoSlice.id todo =? id) (TodoSlice.list (todos state)) with
    | Some todo => todoItem todo
    | None => undefinedItem
    end
  else if String.eqb itemType "post" then
    match find (fun post => Selectors.id post =? id) (Selectors.posts (posts state)) with
    | Some post => postItem post
    | None => undefinedItem
    end
  else if String.eqb itemType "user" then userItem (UserSlice.userData (user state))
  else nullItem.



End CombinedSelectors.

(** ** App.jsx: what the form of the todos does to the slice *)
Module App.

(** [handleAddTodo]: [if (newTodo.trim()) todos.addTodo(newTodo.trim())];
    [newTodo] is the text of the input, [now] what [Date.now()] reads in
    the reducer. *)
Definition handleAddTodo (newTodo : string) (state : TodoSlice.State) (now : Z)
  : TodoSlice.State :=
  match JS.trim newTodo with
  | EmptyString => state
  | String _ _ as title => TodoSlice.addTodo state title now
  end.

End App.

(** ** createSelector

    The sources import [createSelector] from [@reduxjs/toolkit] (the
    reselect library) and do not contain it. Its memoization is given here
    as the specification describes it, over a heap in which every object
    and array has an address, so that "the same reference" has a meaning. *)
Module Reselect.

#[local] Open Scope Z_scope.

(** A value as a selector passes it on: a primitive, or a reference to an
    object or array of the heap. *)
Inductive Value :=
| number (n : Z)
| NaN
| text (s : string)
| boolean (b : bool)
| undefined
| reference (address : nat).

(** Modelled from the spec: the comparison of an input with its previous
    value, missing with [createSelector], "by value-equality for
    primitives, by reference for composite values". It is [a === b]: NaN
    differs from itself. *)
Definition identical (a b : Value) : bool :=
  match a, b with
  | number x, number y => x =? y
  | text x, text y => String.eqb x y
  | boolean x, boolean y => Bool.eqb x y
  | undefined, undefined => true
  | reference x, reference y => (x =? y)%nat
  | _, _ => false
  end.

Fixpoint sameInputs (previous current : list Value) : bool :=
  match previous, current with
  | [], [] => true
  | a :: previous', b :: current' => identical a b && sameInputs previous' current'
  | _, _ => false
  end.

(** The objects the posts selectors read and build. *)
Inductive Object :=
| postsArray (posts : list Selectors.Post)
| filtersObject (filters : Selectors.Filters)
| paginationObject (pagination : Selectors.Pagination).

(** The heap: every object at its address. A new object gets an address
    that no object had before. *)
Definition Heap := list Object.

Definition allocate (o : Object) (heap : Heap) : Value * Heap :=
  (reference (List.length heap), heap ++ [o]).

(** A compute function: from the values of the declared inputs to its
    result, which may be a new object. *)
Definition ComputeFn := list Value -> Heap -> Value * Heap.

(** Modelled from the spec: what a derivation keeps between two reads,
    missing with [createSelector]: the inputs and the result of the last
    computation, and how often the compute function has run. *)
Record Memo := mkMemo {
  lastInputs : option (list Value);
  lastResult : Value;
  recomputations : nat
}.

Definition emptyMemo : Memo := mkMemo None undefined 0.

Definition recompute (computeFn : ComputeFn) (inputs : list Value)
  (memo : Memo) (heap : Heap) : Value * Memo * Heap :=
  let (result, heap') := computeFn inputs heap in
  (result, mkMemo (Some inputs) result (S (recomputations memo)), heap').

(** Modelled from the spec: [createSelector] of the reselect library, which
    the sources import from [@reduxjs/toolkit] and do not contain. One read
    of [derive(inputs, computeFn)], given the current values of the inputs:
    "if, compared to the previous invocation, every input's value is
    identical (by value-equality for primitives, by reference for composite
    values), computeFn is not re-invoked; the previously cached result is
    returned", and otherwise computeFn is run on the current values and its
    result is kept with them. *)
Definition read (computeFn : ComputeFn) (inputs : list Value)
  (memo : Memo) (heap : Heap) : Value * Memo * Heap :=
  match lastInputs memo with
  | Some previous =>
      if sameInputs previous inputs
      then (lastResult memo, memo, heap)
      else recompute computeFn inputs memo heap
  | None => recompute computeFn inputs memo heap
  end.

(** The compute function of [selectFilteredPosts] on the heap: its inputs
    are [state.posts.posts] and [state.posts.filters], its result is a new
    array ([[...posts]], or the array that [filter] builds). *)
Definition filteredPostsFn (engine : ArraySort.Engine) : ComputeFn :=
  fun inputs heap =>
    match inputs with
    | [reference p; reference f] =>
        match nth_error heap p, nth_error heap f with
        | Some (postsArray posts), Some (filtersObject filters) =>
            allocate (postsArray (Selectors.filteredPosts engine posts filters)) heap
        | _, _ => (undefined, heap)
        end
    | _ => (undefined, heap)
    end.

(** The compute function of [selectPaginatedPosts]: its inputs are the
    result of [selectFilteredPosts] and [state.posts.pagination], its
    result is the new array that [slice] builds. *)
Definition paginatedPostsFn : ComputeFn :=
  fun inputs heap =>
    match inputs with
    | [reference f; reference p] =>
        match nth_error heap f, nth_error heap p with
        | Some (postsArray filtered), Some (paginationObject pagination) =>
            allocate (postsArray (Selectors.paginatedPosts filtered pagination)) heap
        | _, _ => (undefined, heap)
        end
    | _ => (undefined, heap)
    end.

End Reselect.

(** * Properties *)

(** ** Arrays: [find] and assignment through the element found *)
Module JSFacts.

Section FindUpdate.

Context {A : Type}.
Variable p : A -> bool.

Lemma findIndex_found (l : list A) :
  forall i, JS.findIndex p l = Some i ->
    exists x, nth_error l i = Some x /\ p x = true
      /\ forall j y, (j < i)%nat -> nth_error l j = Some y -> p y = false.
Proof.
  induction l as [|x l IH]; intros i Hfind; simpl in Hfind; [discriminate|].
  destruct (p x) eqn:Hpx.
  - injection Hfind as <-. exists x. repeat split; auto. intros j y Hj. lia.
  - destruct (JS.findIndex p l) as [k|] eqn:Hk; [|discriminate].
    injection Hfind as <-. destruct (IH k eq_refl) as (y & Hy & Hpy & Hbefore).
    exists y. repeat split; auto.
    intros [|j] z Hj Hz; simpl in Hz.
    + now injection Hz as <-.
    + apply (Hbefore j); [lia | assumption].
Qed.

Lemma findIndex_none (l : list A) :
  JS.findIndex p l = None <-> forall x, In x l -> p x = false.
Proof.
  induction l as [|x l IH]; simpl.
  - split; [intros _ y [] | reflexivity].
  - destruct (p x) eqn:Hpx.
    + split; [discriminate|]. intros H. specialize (H x (or_introl eq_refl)).
      congruence.
    + destruct (JS.findIndex p l); simpl.
      * split; [discriminate|]. intros H.
        assert (Hl : forall y, In y l -> p y = false) by (intros y Hy; apply H; now right).
        apply IH in Hl. discriminate.
      * split; [|reflexivity]. intros _ y [<-|Hy]; [assumption|].
        now apply IH.
Qed.

Variable f : A -> A.

Lemma findIndex_updateAt (l : list A) :
  (forall x, p (f x) = p x) ->
  forall i, JS.findIndex p (JS.updateAt i f l) = JS.findIndex p l.
Proof.
  intros Hpf. induction l as [|x l IH]; intros [|i]; simpl; try reflexivity.
  - now rewrite Hpf.
  - now rewrite IH.
Qed.

Lemma updateAt_twice (l : list A) :
  (forall x, f (f x) = x) ->
  forall i, JS.updateAt i f (JS.updateAt i f l) = l.
Proof.
  intros Hff. induction l as [|x l IH]; intros [|i]; simpl; try reflexivity.
  - now rewrite Hff.
  - now rewrite IH.
Qed.

Lemma updateAt_length (l : list A) :
  forall i, List.length (JS.updateAt i f l) = List.length l.
Proof.
  induction l as [|x l IH]; intros [|i]; simpl; auto.
Qed.

Lemma updateAt_nth_error (l : list A) :
  forall i j,
    nth_error (JS.updateAt i f l) j
    = if (j =? i)%nat then option_map f (nth_error l j) else nth_error l j.
Proof.
  induction l as [|x l IH]; intros [|i] [|j]; simpl; try reflexivity.
  - now destruct (j =? i)%nat.
  - apply IH.
Qed.

End FindUpdate.

End JSFacts.

(** ** The todos slice *)
Module TodoSliceFacts.

Import TodoSlice.
#[local] Open Scope Z_scope.

Lemma flipCompleted_twice (todo : Todo) : flipCompleted (flipCompleted todo) = todo.
Proof. destruct todo as [i t c u]. unfold flipCompleted. simpl. now rewrite negb_involutive. Qed.

(** C6. When [fetchTodos.rejected] is reduced, [state.list] is the list it
    was before; the status becomes [failed] and the error becomes the
    payload, or 'Failed to fetch todos' when the payload is empty or
    absent. The state has no other field. *)
Theorem rejected_keeps_list (state : State) (payload : option string) :
  let after := extraReducers state (rejected payload) in
  list after = list state
  /\ status after = failed
  /\ error after = Some (JS.orDefault payload "Failed to fetch todos")
  /\ after = mkState (list state) (status after) (error after).
Proof. cbv zeta. simpl. auto. Qed.

(** C9. [toggleTodo] twice with the same id gives back the state it
    started from; with an id that no todo has it changes nothing; and one
    application keeps the status, the error, the length of the list and
    every field of every todo except [completed], which it negates at the
    first todo that has the id and nowhere else. *)
Theorem toggleTodo_twice_and_frame (state : State) (payload : Z) :
  toggleTodo (toggleTodo state payload) payload = state
  /\ ((forall todo, In todo (list state) -> id todo <> payload) ->
      toggleTodo state payload = state)
  /\ status (toggleTodo state payload) = status state
  /\ error (toggleTodo state payload) = error state
  /\ List.length (list (toggleTodo state payload)) = List.length (list state)
  /\ forall i todo, nth_error (list state) i = Some todo ->
       exists todo',
         nth_error (list (toggleTodo state payload)) i = Some todo'
         /\ id todo' = id todo /\ title todo' = title todo
         /\ userId todo' = userId todo
         /\ completed todo'
            = if andb (id todo =? payload)
                      (forallb (fun earlier => negb (id earlier =? payload))
                               (firstn i (list state)))
              then negb (completed todo) else completed todo.
Proof.
  destruct state as [l st er]. unfold toggleTodo. simpl.
  set (p := fun todo : Todo => id todo =? payload).
  assert (Hp : forall x, p (flipCompleted x) = p x) by reflexivity.
  destruct (JS.findIndex p l) as [k|] eqn:Hfind; simpl.
  - rewrite (JSFacts.findIndex_updateAt p flipCompleted l Hp), Hfind.
    rewrite (JSFacts.updateAt_twice flipCompleted l flipCompleted_twice).
    split; [reflexivity|]. split.
    { intros Hnone. destruct (JSFacts.findIndex_found p l k Hfind) as (x & Hx & Hpx & _).
      apply nth_error_In in Hx. apply Hnone in Hx. unfold p in Hpx. lia. }
    repeat split; auto using JSFacts.updateAt_length.
    intros i todo Hi. rewrite JSFacts.updateAt_nth_error, Hi.
    destruct (JSFacts.findIndex_found p l k Hfind) as (x & Hx & Hpx & Hbefore).
    destruct (Nat.eqb_spec i k) as [->|Hne]; simpl.
    + exists (flipCompleted todo). repeat split.
      assert (x = todo) by congruence. subst x. unfold p in Hpx. rewrite Hpx. simpl.
      replace (forallb _ _) with true; [reflexivity|].
      symmetry. apply forallb_forall. intros y Hy.
      apply In_nth_error in Hy. destruct Hy as (j & Hj).
      rewrite nth_error_firstn in Hj.
      destruct (Nat.ltb_spec j k) as [Hjk|]; [|discriminate].
      pose proof (Hbefore j y Hjk Hj) as Hpy. unfold p in Hpy. now rewrite Hpy.
    + exists todo. repeat split.
      destruct (id todo =? payload) eqn:Hid; simpl; [|reflexivity].
      replace (forallb _ _) with false; [reflexivity|].
      symmetry. apply not_true_is_false. intros Hall.
      rewrite forallb_forall in Hall.
      assert (Hik : (i < k)%nat \/ (k < i)%nat) by lia.
      destruct Hik as [Hik|Hki].
      * pose proof (Hbefore i todo Hik Hi) as Hpt. unfold p in Hpt. congruence.
      * assert (Hin : In x (firstn i l)).
        { apply nth_error_In with k. rewrite nth_error_firstn.
          destruct (Nat.ltb_spec k i); [assumption | lia]. }
        apply Hall in Hin. unfold p in Hpx. rewrite Hpx in Hin. discriminate.
  - rewrite Hfind. split; [reflexivity|]. split; [reflexivity|].
    repeat split; auto.
    intros i todo Hi. exists todo. repeat split; auto.
    rewrite JSFacts.findIndex_none in Hfind.
    pose proof (Hfind todo (nth_error_In _ _ Hi)) as Hpt. unfold p in Hpt.
    now rewrite Hpt.
Qed.

End TodoSliceFacts.

(** ** Strings: what [includes] decides *)
Module StringFacts.

#[local] Open Scope string_scope.

(** [sub] is a substring of [s]. *)
Definition contains (s sub : string) : Prop :=
  exists before after, s = before ++ sub ++ after.

Lemma startsWith_prefix (sub : string) :
  forall s, JS.startsWith s sub = true <-> exists after, s = sub ++ after.
Proof.
  induction sub as [|a sub IH]; intros s.
  - destruct s; (split; [intros _; eexists; reflexivity | reflexivity]).
  - destruct s as [|b s]; cbn [JS.startsWith].
    + split; [discriminate | intros (after & H); discriminate].
    + rewrite andb_true_iff, Ascii.eqb_eq, IH. split.
      * intros (-> & after & ->). now exists after.
      * intros (after & H). injection H as -> ->. split; [reflexivity|now exists after].
Qed.

Lemma includes_contains (s sub : string) :
  JS.includes s sub = true <-> contains s sub.
Proof.
  unfold contains. induction s as [|c s IH].
  - cbn [JS.includes]. rewrite orb_false_r, startsWith_prefix. split.
    + intros (after & H). now exists "", after.
    + intros (before & after & H). destruct before; simpl in H.
      * now exists after.
      * discriminate.
  - cbn [JS.includes]. rewrite orb_true_iff, startsWith_prefix, IH. split.
    + intros [(after & H) | (before & after & H)].
      * now exists "", after.
      * exists (String c before), after. simpl. now rewrite H.
    + intros (before & after & H). destruct before as [|b before]; simpl in H.
      * left. now exists after.
      * right. injection H as -> ->. now exists before, after.
Qed.

End StringFacts.

(** ** The user slice *)
Module UserSliceFacts.

Import UserSlice.

(** C8. When [fetchUserProfile.rejected] is reduced with a message,
    [isLoading] becomes false and [error] the message; when the message
    contains "token" the user is logged out ([isAuthenticated] false,
    [userData] and [token] null), and otherwise these three fields are what
    they were. The login attempts and the last login time are kept in both
    cases. *)
Theorem rejected_profile_logs_out_on_token (state : State) (message : string) :
  exists after,
    fetchUserProfileReducer state (rejected (Some message)) = Some after
    /\ isLoading after = false
    /\ error after = Some message
    /\ loginAttempts after = loginAttempts state
    /\ lastLoginTime after = lastLoginTime state
    /\ (StringFacts.contains message "token" ->
        isAuthenticated after = false /\ userData after = None
        /\ token after = None)
    /\ (~ StringFacts.contains message "token" ->
        isAuthenticated after = isAuthenticated state
        /\ userData after = userData state
        /\ token after = token state).
Proof.
  cbn [fetchUserProfileReducer].
  destruct (JS.includes message "token") eqn:Hinc; eexists; (split; [reflexivity|]);
    cbn; repeat split; auto;
    match goal with
    | Hno : ~ StringFacts.contains _ _ |- _ =>
        exfalso; apply Hno; now apply StringFacts.includes_contains
    | Hyes : StringFacts.contains _ _ |- _ =>
        apply StringFacts.includes_contains in Hyes; congruence
    end.
Qed.

(** A rejection that carries no message makes the case reducer throw. *)
Lemma rejected_profile_without_message (state : State) :
  fetchUserProfileReducer state (rejected None) = None.
Proof. reflexivity. Qed.

End UserSliceFacts.

(** ** The base query and its retry *)
Module ApiSliceFacts.

Import ApiSlice.

Section Retry.

Variables Args Data : Type.
Variable respond : nat -> Args -> QueryResult Data.

(** C7. [baseQueryWithRetry] makes the request once more, with the same
    arguments, when the first response is an error of status FETCH_ERROR,
    and makes it once in every other case, a response with an HTTP status
    outside 2xx included; what it returns is the response to the last
    request it made. *)
Theorem baseQueryWithRetry_attempts (args : Args) (log : list Args) :
  let first := respond (List.length log) args in
  let second := respond (S (List.length log)) args in
  let outcome := baseQueryWithRetry respond args log in
  outcome = (if isFetchError first
             then (second, log ++ [args; args])
             else (first, log ++ [args]))
  /\ List.length (snd outcome)
     = (List.length log + (if isFetchError first then 2 else 1))%nat
  /\ (isFetchError first = true <->
      exists detail, first = error (mkQueryError FETCH_ERROR detail))
  /\ (forall code detail, first = error (mkQueryError (HTTP code) detail) ->
      outcome = (first, log ++ [args])).
Proof.
  cbv zeta. unfold baseQueryWithRetry, bind, baseQuery, ret.
  assert (Hfirst :
    isFetchError (respond (List.length log) args) = true <->
    exists detail, respond (List.length log) args
                   = error (mkQueryError FETCH_ERROR detail)).
  { destruct (respond (List.length log) args) as [d|[[c| | | |] detail]]; simpl;
      split; try discriminate; try (intros (x & Hx); discriminate).
    - intros _. now exists detail.
    - reflexivity. }
  destruct (isFetchError (respond (List.length log) args)) eqn:Hretry.
  - rewrite length_app, Nat.add_1_r, <- app_assoc. simpl.
    repeat split; try tauto.
    + rewrite length_app. reflexivity.
    + intros code detail Hhttp. rewrite Hhttp in Hretry. discriminate.
  - simpl. repeat split; try tauto.
    rewrite length_app. reflexivity.
Qed.

End Retry.

End ApiSliceFacts.

(** ** Arrays: [slice] *)
Module SliceFacts.

#[local] Open Scope Z_scope.

Section Slice.

Context {A : Type}.

(** Between two indices that are not negative, [slice] is the part of the
    array from [start] up to, and without, [stop]. *)
Lemma slice_from_start (l : list A) (start stop : Z) :
  0 <= start -> start <= stop ->
  JS.slice l start stop
  = firstn (Z.to_nat (stop - start)) (skipn (Z.to_nat start) l).
Proof.
  intros Hstart Hstop. unfold JS.slice, JS.relativeIndex.
  destruct (Z.ltb_spec start 0); [lia|].
  destruct (Z.ltb_spec stop 0); [lia|].
  destruct (Z.le_gt_cases (Z.of_nat (List.length l)) start) as [Hout|Hin].
  - rewrite (skipn_all2 (n := Z.to_nat start)) by lia.
    rewrite (skipn_all2 (n := Z.to_nat (Z.min start (Z.of_nat (List.length l)))))
      by lia.
    now rewrite !firstn_nil.
  - rewrite (Z.min_l start) by lia.
    destruct (Z.le_gt_cases stop (Z.of_nat (List.length l))).
    + rewrite (Z.min_l stop) by lia. rewrite Z.max_l by lia. reflexivity.
    + rewrite (Z.min_r stop) by lia. rewrite Z.max_l by lia.
      rewrite !firstn_all2; [reflexivity | |]; rewrite length_skipn; lia.
Qed.

(** An index below zero counts from the end of the array. *)
Lemma slice_from_end (l : list A) (start stop : Z) :
  start < 0 -> stop < 0 ->
  let len := Z.of_nat (List.length l) in
  let low := Z.max (len + start) 0 in
  let high := Z.max (len + stop) 0 in
  JS.slice l start stop
  = firstn (Z.to_nat (high - low)) (skipn (Z.to_nat low) l).
Proof.
  intros Hstart Hstop. cbv zeta. unfold JS.slice, JS.relativeIndex.
  destruct (Z.ltb_spec start 0); [|lia].
  destruct (Z.ltb_spec stop 0); [|lia].
  f_equal. lia.
Qed.

(** Up to index zero from an index that is not positive, [slice] is empty. *)
Lemma slice_to_zero (l : list A) (start : Z) :
  start <= 0 -> JS.slice l start 0 = [].
Proof.
  intros Hstart. unfold JS.slice, JS.relativeIndex.
  change (0 <? 0) with false.
  destruct (Z.ltb_spec start 0); cbv iota;
    match goal with
    | |- firstn ?n _ = _ => replace n with 0%nat by lia
    end; reflexivity.
Qed.

End Slice.

End SliceFacts.

(** ** Pagination *)
Module PaginationFacts.

Import Selectors.
#[local] Open Scope Z_scope.

(** A collection of [n] posts, numbered from 0. *)
Definition numberedPosts (n : nat) : list Post :=
  map (fun i => mkPost (Z.of_nat i) "title" "body" 1) (seq 0 n).

(** C3. From page 1 on, [selectPaginatedPosts] returns the records at the
    indices from [(page - 1) * pageSize] up to, and without,
    [(page - 1) * pageSize + pageSize]: the record at position [i] of the
    result is the one at position [start + i] of the collection when
    [i < pageSize], and there is none otherwise. A page that starts at or
    after the end of the collection is empty. On 25 records with pages of
    10, page 1 is the first 10 records, page 3 is the 5 records from index
    20 on, and page 4 is empty. *)
Theorem paginatedPosts_is_the_page
  (filtered : list Post) (page pageSize : Z) :
  1 <= page -> 0 <= pageSize ->
  let start := (page - 1) * pageSize in
  let result := paginatedPosts filtered (mkPagination page pageSize) in
  result = firstn (Z.to_nat pageSize) (skipn (Z.to_nat start) filtered)
  /\ (forall i : nat,
        nth_error result i
        = if Z.of_nat i <? pageSize
          then nth_error filtered (Z.to_nat start + i)
          else None)
  /\ (Z.of_nat (List.length filtered) <= start -> result = [])
  /\ (List.length filtered = 25%nat -> pageSize = 10 ->
      (page = 1 -> result = firstn 10 filtered)
      /\ (page = 3 -> result = skipn 20 filtered /\ List.length result = 5%nat)
      /\ (page = 4 -> result = [])).
Proof.
  intros Hpage Hsize. cbv zeta.
  assert (Hslice :
    paginatedPosts filtered (mkPagination page pageSize)
    = firstn (Z.to_nat pageSize) (skipn (Z.to_nat ((page - 1) * pageSize)) filtered)).
  { unfold paginatedPosts. cbn [currentPage itemsPerPage].
    rewrite SliceFacts.slice_from_start by nia.
    do 2 f_equal. lia. }
  rewrite Hslice. split; [reflexivity|]. split; [|split].
  - intros i. rewrite nth_error_firstn, nth_error_skipn.
    destruct (Z.ltb_spec (Z.of_nat i) pageSize), (Nat.ltb_spec i (Z.to_nat pageSize));
      try reflexivity; lia.
  - intros Hout. rewrite skipn_all2 by lia. apply firstn_nil.
  - intros Hlen -> . change (Z.to_nat 10) with 10%nat.
    split; [|split]; intros ->.
    + reflexivity.
    + change (Z.to_nat ((3 - 1) * 10)) with 20%nat.
      assert (Hfive : List.length (skipn 20 filtered) = 5%nat)
        by (rewrite length_skipn; lia).
      rewrite firstn_all2 by lia. auto.
    + change (Z.to_nat ((4 - 1) * 10)) with 30%nat.
      rewrite skipn_all2 by lia. reflexivity.
Qed.

Lemma paginatedPosts_is_the_page_witness :
  paginatedPosts (numberedPosts 25) (mkPagination 3 10)
  = map (fun i => mkPost i "title" "body" 1) [20; 21; 22; 23; 24].
Proof.
  pose proof (@paginatedPosts_is_the_page (numberedPosts 25) 3 10
                ltac:(lia) ltac:(lia)) as (_ & _ & _ & H25).
  destruct (H25 eq_refl eq_refl) as (_ & Hthree & _).
  destruct (Hthree eq_refl) as (Hpage & _).
  rewrite Hpage. reflexivity.
Defined.

(** With a page size below zero the end index is an index from the end of
    the array: page 1 with page size -1 returns all records but the last. *)
Lemma paginatedPosts_negative_page_size :
  paginatedPosts (numberedPosts 3) (mkPagination 1 (-1)) = numberedPosts 2.
Proof. reflexivity. Qed.

(** C4, as stated, fails: on 25 records with pages of 10, page -1 is
    neither refused nor empty nor the first page: it is the 10 records at
    the indices 5 to 14. *)
Lemma page_below_one_returns_inner_slice :
  let result := paginatedPosts (numberedPosts 25) (mkPagination (-1) 10) in
  result = firstn 10 (skipn 5 (numberedPosts 25))
  /\ result <> []
  /\ result <> paginatedPosts (numberedPosts 25) (mkPagination 1 10).
Proof.
  cbv zeta. split; [reflexivity|]. split; vm_compute; discriminate.
Qed.

(** C4, amended. With a page number below 1 and a page size that is not
    negative, [selectPaginatedPosts] refuses nothing and clamps nothing:
    page 0 is empty, and a page below 0 is the part of the collection
    between its two indices [(page - 1) * pageSize] and [page * pageSize]
    counted from the end of the collection, each brought up to 0 when it
    falls before the start. *)
Theorem paginatedPosts_below_page_one
  (filtered : list Post) (page pageSize : Z) :
  page < 1 -> 0 <= pageSize ->
  let len := Z.of_nat (List.length filtered) in
  let start := (page - 1) * pageSize in
  let stop := start + pageSize in
  let result := paginatedPosts filtered (mkPagination page pageSize) in
  (page = 0 -> result = [])
  /\ (page < 0 ->
      let low := Z.max (len + start) 0 in
      let high := Z.max (len + stop) 0 in
      result = firstn (Z.to_nat (high - low)) (skipn (Z.to_nat low) filtered)).
Proof.
  intros Hpage Hsize. cbv zeta. unfold paginatedPosts.
  cbn [currentPage itemsPerPage]. split.
  - intros ->. replace ((0 - 1) * pageSize + pageSize) with 0 by lia.
    apply SliceFacts.slice_to_zero. lia.
  - intros Hneg. destruct (Z.eq_dec pageSize 0) as [->|Hpos].
    + replace ((page - 1) * 0) with 0 by lia. simpl (0 + 0).
      rewrite SliceFacts.slice_to_zero by lia.
      rewrite Z.add_0_r, Z.sub_diag. reflexivity.
    + apply SliceFacts.slice_from_end; nia.
Qed.

Lemma paginatedPosts_below_page_one_witness :
  paginatedPosts (numberedPosts 25) (mkPagination (-1) 10)
  = firstn 10 (skipn 5 (numberedPosts 25)).
Proof.
  exact (proj2 (@paginatedPosts_below_page_one (numberedPosts 25) (-1) 10
                  ltac:(lia) ltac:(lia)) ltac:(lia)).
Defined.

End PaginationFacts.

(** ** The filtered posts *)
Module FilterFacts.

Import Selectors.
#[local] Open Scope Z_scope.

(** [field] contains [term] when the case of letters is ignored: the
    lower-case form of the one contains the lower-case form of the other. *)
Definition containsIgnoringCase (field term : string) : Prop :=
  StringFacts.contains (JS.toLowerCase field) (JS.toLowerCase term).

(** The searchable fields of a post are its title and its body. *)
Definition matchesTerm (term : string) (post : Post) : Prop :=
  containsIgnoringCase (title post) term \/ containsIgnoringCase (body post) term.

Lemma matchesSearch_matchesTerm (term : string) (post : Post) :
  matchesSearch (JS.toLowerCase term) post = true <-> matchesTerm term post.
Proof.
  unfold matchesSearch, matchesTerm, containsIgnoringCase.
  now rewrite orb_true_iff, !StringFacts.includes_contains.
Qed.

(** C1, as stated, fails: with an empty search term the two posts below,
    sorted by date in ascending order, come out in the other order, on
    either engine. *)
Lemma empty_search_reorders_posts :
  let posts := [mkPost 2 "second" "b" 1; mkPost 1 "first" "a" 1] in
  let filters := mkFilters (Some ""%string) "all" "date" "asc" in
  filteredPosts ArraySort.v8 posts filters = rev posts
  /\ filteredPosts ArraySort.spiderMonkey posts filters = rev posts
  /\ filteredPosts ArraySort.v8 posts filters <> posts.
Proof. cbv zeta. repeat split. vm_compute. discriminate. Qed.

(** C1, amended. With a search term that is empty or absent,
    [selectFilteredPosts] returns the records of the full collection, each
    as often as it is there, in the order the sort step puts them; with a
    search term, it returns the records whose title or body contains the
    term when the case of letters is ignored, and no other record, in the
    order the sort step puts these: the result is the sort, with the
    comparator of the filters, of the matching records in their input
    order. *)
Theorem filteredPosts_are_the_matches_reordered
  (engine : ArraySort.Engine) (posts : list Post) (filters : Filters) :
  let result := filteredPosts engine posts filters in
  match search filters with
  | Some (String _ _ as term) =>
      Permutation (filter (matchesSearch (JS.toLowerCase term)) posts) result
      /\ (forall post, In post result <-> In post posts /\ matchesTerm term post)
      /\ result = ArraySort.sort engine (comparePosts filters)
                    (filter (matchesSearch (JS.toLowerCase term)) posts)
  | _ =>
      Permutation posts result
      /\ result = ArraySort.sort engine (comparePosts filters) posts
  end.
Proof.
  cbv zeta. unfold filteredPosts.
  destruct (search filters) as [[|c term]|].
  - split; [apply ArraySort.sort_permutation | reflexivity].
  - cbv zeta.
    assert (Hperm : Permutation
      (filter (matchesSearch (JS.toLowerCase (String c term))) posts)
      (ArraySort.sort engine (comparePosts filters)
         (filter (matchesSearch (JS.toLowerCase (String c term))) posts)))
      by apply ArraySort.sort_permutation.
    split; [exact Hperm|]. split; [|reflexivity]. intros post.
    rewrite <- matchesSearch_matchesTerm, <- filter_In. split.
    + apply Permutation_in. now symmetry.
    + now apply Permutation_in.
  - split; [apply ArraySort.sort_permutation | reflexivity].
Qed.

End FilterFacts.

(** ** The sort step *)
Module SortFacts.

Import Selectors.
#[local] Open Scope Z_scope.

Lemma string_compare_same (s : string) : String.compare s s = Eq.
Proof.
  pose proof (String.compare_antisym s s) as Hanti.
  destruct (String.compare s s); [reflexivity | discriminate | discriminate].
Qed.

Lemma gt_same (v : SortValue) : gt v v = false.
Proof.
  destruct v as [s|n|[d|]]; simpl; auto.
  - unfold JS.strGt. now rewrite string_compare_same.
  - rewrite Z.gtb_ltb. apply Z.ltb_irrefl.
  - rewrite Z.gtb_ltb. apply Z.ltb_irrefl.
Qed.

Lemma lt_same (v : SortValue) : lt v v = false.
Proof.
  destruct v as [s|n|[d|]]; simpl; auto using Z.ltb_irrefl.
  unfold JS.strLt. now rewrite string_compare_same.
Qed.

(** Two posts with the same sort value are each put before the other. *)
Lemma comparePosts_same_value (filters : Filters) (a b : Post) :
  sortValue filters a = sortValue filters b -> comparePosts filters a b = -1.
Proof.
  intros Hsame. unfold comparePosts. rewrite Hsame.
  rewrite gt_same, lt_same. now destruct (String.eqb _ _).
Qed.

Section AlwaysBefore.

Context {A : Type}.
Variable comparefn : A -> A -> Z.

(** The elements that the comparator puts each before every other one. *)
Variable tied : A -> Prop.
Hypothesis tied_before : forall a b, tied a -> tied b -> comparefn a b < 0.

(** Among them, the run that starts the array is found to descend to its
    end. *)
Lemma extendRun_all_before (rest : list A) :
  forall previous, tied previous -> Forall tied rest ->
    ArraySort.extendRun comparefn true previous rest = (rest, []).
Proof.
  induction rest as [|current rest IH]; intros previous Hprevious Hrest; simpl.
  - reflexivity.
  - inversion Hrest as [|x xs Hcurrent Hrest']; subst.
    destruct (Z.geb_spec (comparefn current previous) 0) as [Hge|_].
    + pose proof (tied_before _ _ Hcurrent Hprevious). lia.
    + now rewrite IH.
Qed.

(** TimSort reverses a short array of such elements. *)
Lemma timSortShort_all_before (l : list A) :
  Forall tied l -> ArraySort.timSortShort comparefn l = rev l.
Proof.
  intros Hall. unfold ArraySort.timSortShort, ArraySort.countAndMakeRun.
  destruct l as [|high [|low rest]]; try reflexivity.
  inversion Hall as [|x xs Hhigh Hall']; subst.
  inversion Hall' as [|x xs Hlow Hrest]; subst.
  destruct (Z.ltb_spec (comparefn low high) 0) as [_|Hge].
  - now rewrite extendRun_all_before.
  - pose proof (tied_before _ _ Hlow Hhigh). lia.
Qed.

(** Insertion from the right leaves it as it is. *)
Lemma insertionSort_all_before (l : list A) :
  Forall tied l -> ArraySort.insertionSort comparefn l = l.
Proof.
  intros Hall. unfold ArraySort.insertionSort.
  assert (Hfold : forall sorted, Forall tied sorted ->
    fold_left (fun sorted item => ArraySort.insertDown comparefn item sorted) l sorted
    = rev l ++ sorted).
  { induction Hall as [|item l Hitem Hall IH]; intros sorted Hsorted; simpl;
      [reflexivity|].
    assert (Hdown : ArraySort.insertDown comparefn item sorted = item :: sorted).
    { destruct Hsorted as [|swap sorted Hswap Hsorted]; simpl; [reflexivity|].
      destruct (Z.leb_spec (comparefn swap item) 0) as [_|Hgt]; [reflexivity|].
      pose proof (tied_before _ _ Hswap Hitem). lia. }
    rewrite Hdown, IH by (constructor; assumption).
    now rewrite <- app_assoc. }
  rewrite Hfold by constructor. rewrite app_nil_r. apply rev_involutive.
Qed.

End AlwaysBefore.

(** With an invalid date on either side the comparator answers [-1]:
    [NaN > x], [x > NaN], [NaN < x] and [x < NaN] are all false. *)
Lemma comparePosts_with_invalid_date (filters : Filters) (a b : Post) :
  sortValue filters a = date None \/ sortValue filters b = date None ->
  comparePosts filters a b = -1.
Proof.
  unfold comparePosts. intros [Ha|Hb].
  - rewrite Ha. destruct (sortValue filters b) as [s|n|[d|]];
      now destruct (String.eqb (sortOrder filters) "asc").
  - rewrite Hb. destruct (sortValue filters a) as [s|n|[d|]];
      now destruct (String.eqb (sortOrder filters) "asc").
Qed.

(** C2. The comparator of the sort step never answers 0: it puts a post
    before itself (also a post whose date is invalid, for which
    [NaN > NaN ? 1 : -1] and [NaN < NaN ? 1 : -1] are both -1, as at the id
    8640000000000001 in either sort order), and two posts of one author
    each before the other, so that the order of the result is the engine's
    choice. On V8 the two posts below, sorted by author, come out in the
    other order; on SpiderMonkey they keep their order. *)
Theorem equal_sort_keys_are_reversed_on_v8 :
  (forall filters a, comparePosts filters a a = -1)
  /\ (let late := mkPost 8640000000000001 "late" "post" 1 in
      sortValue (mkFilters (Some ""%string) "all" "date" "desc") late = date None
      /\ comparePosts (mkFilters (Some ""%string) "all" "date" "desc") late late = -1
      /\ comparePosts (mkFilters (Some ""%string) "all" "date" "asc") late late = -1)
  /\ let first := mkPost 1 "sunt aut facere" "quia et suscipit" 1 in
     let second := mkPost 2 "qui est esse" "est rerum tempore" 1 in
     let filters := mkFilters (Some ""%string) "all" "author" "asc" in
     sortValue filters first = sortValue filters second
     /\ comparePosts filters first second = -1
     /\ comparePosts filters second first = -1
     /\ filteredPosts ArraySort.v8 [first; second] filters = [second; first]
     /\ filteredPosts ArraySort.spiderMonkey [first; second] filters
        = [first; second].
Proof.
  split; [|split].
  - intros filters a. now apply comparePosts_same_value.
  - cbv zeta. repeat split.
  - cbv zeta. repeat split.
Qed.

(** On V8, an array of fewer than 64 posts that all have the sort value
    of [post] is returned in the reverse order; on SpiderMonkey a short
    array of such posts is returned as it is. *)
Lemma same_sort_value_reversed_on_v8
  (posts : list Post) (filters : Filters) (post : Post) :
  search filters = Some ""%string ->
  Forall (fun a => sortValue filters a = sortValue filters post) posts ->
  filteredPosts ArraySort.v8 posts filters = rev posts
  /\ filteredPosts ArraySort.spiderMonkey posts filters = posts.
Proof.
  intros Hsearch Hsame. unfold filteredPosts. rewrite Hsearch. cbn.
  assert (Htied : forall a b,
    sortValue filters a = sortValue filters post ->
    sortValue filters b = sortValue filters post ->
    comparePosts filters a b < 0).
  { intros a b Ha Hb. rewrite comparePosts_same_value by congruence. lia. }
  split.
  - exact (timSortShort_all_before (comparePosts filters)
             (fun a => sortValue filters a = sortValue filters post)
             Htied posts Hsame).
  - exact (insertionSort_all_before (comparePosts filters)
             (fun a => sortValue filters a = sortValue filters post)
             Htied posts Hsame).
Qed.

End SortFacts.

(** ** Doubles: a result does not pass an integer bound of the exact value *)
Module Float64Facts.

Import Float64.
#[local] Open Scope Z_scope.

Lemma roundHalfEven_bounds (num den bound : Z) :
  0 <= num -> 0 < den -> num <= bound * den ->
  0 <= roundHalfEven num den <= bound.
Proof.
  intros Hnum Hden Hbound. unfold roundHalfEven.
  pose proof (Z.div_mod num den ltac:(lia)) as Hdiv.
  pose proof (Z.mod_pos_bound num den Hden) as Hmod.
  assert (Hq : 0 <= num / den) by (apply Z.div_pos; lia).
  assert (Hle : num / den <= bound) by nia.
  assert (Hlt : 0 < num mod den -> num / den + 1 <= bound) by nia.
  destruct (Z.compare_spec (2 * (num mod den)) den) as [Heq|Hlow|Hhigh].
  - destruct (Z.even (num / den)); lia.
  - lia.
  - lia.
Qed.

Lemma floorLog2_le (num den bound : Z) :
  0 < num -> 0 < den -> num <= bound * den ->
  floorLog2 num den <= Z.log2 bound + 1.
Proof.
  intros Hnum Hden Hbound. unfold floorLog2.
  assert (Hb : 0 < bound) by nia.
  assert (Hlog : Z.log2 num <= Z.log2 bound + Z.log2 den + 1).
  { transitivity (Z.log2 (bound * den)).
    - apply Z.log2_le_mono. assumption.
    - apply Z.log2_mul_above; lia. }
  destruct (if 0 <=? Z.log2 num - Z.log2 den then _ else _); lia.
Qed.

(** The double nearest to a quotient that is at most [bound], for an
    integer [bound] below 2^51, is at most [bound] too. *)
Lemma nearest_bounds (num den bound : Z) :
  0 <= num -> 0 < den -> 0 < bound -> Z.log2 bound <= 50 ->
  num <= bound * den ->
  expo (nearest num den) <= 0
  /\ 0 <= mant (nearest num den) <= bound * 2 ^ (- expo (nearest num den)).
Proof.
  intros Hnum Hden Hb Hsmall Hbound. unfold nearest.
  destruct (Z.eqb_spec num 0) as [->|Hnz]; cbn [mant expo].
  - simpl. lia.
  - pose proof (@floorLog2_le num den bound ltac:(lia) Hden Hbound) as Hlog.
    set (e := floorLog2 num den - 52) in *.
    assert (He : e < 0) by lia.
    destruct (Z.leb_spec 0 e); [lia|].
    assert (Hpow : 0 < 2 ^ (- e)) by (apply Z.pow_pos_nonneg; lia).
    split; [lia|].
    apply roundHalfEven_bounds; nia.
Qed.

Lemma times_bounds (x : Double) (n bound : Z) :
  0 <= n -> 0 < bound -> Z.log2 (bound * n) <= 50 -> 0 < bound * n ->
  expo x <= 0 -> 0 <= mant x <= bound * 2 ^ (- expo x) ->
  expo (times x n) <= 0
  /\ 0 <= mant (times x n) <= bound * n * 2 ^ (- expo (times x n)).
Proof.
  intros Hn Hb Hsmall Hpos He Hm. unfold times.
  assert (Hpow : 0 < 2 ^ (- expo x)) by (apply Z.pow_pos_nonneg; lia).
  destruct (Z.leb_spec 0 (expo x)).
  - assert (Hzero : expo x = 0) by lia. rewrite Hzero in *. simpl in Hm.
    change (2 ^ 0) with 1. apply nearest_bounds; nia.
  - apply nearest_bounds; nia.
Qed.

Lemma MathRound_bounds (x : Double) (bound : Z) :
  0 <= bound ->
  expo x <= 0 -> 0 <= mant x <= bound * 2 ^ (- expo x) ->
  0 <= MathRound x <= bound.
Proof.
  intros Hb He Hm. unfold MathRound.
  assert (Hpow : 0 < 2 ^ (- expo x)) by (apply Z.pow_pos_nonneg; lia).
  destruct (Z.leb_spec 0 (expo x)).
  - assert (Hzero : expo x = 0) by lia. rewrite Hzero in *. simpl in Hm.
    change (2 ^ 0) with 1. lia.
  - split.
    + apply Z.div_pos; lia.
    + apply Z.lt_succ_r. apply Z.div_lt_upper_bound; nia.
Qed.

(** *** The model against the binary64 numbers of the kernel *)

(** The double [x] and the binary64 number [f] are the same number. *)
Definition sameNumber (x : Double) (f : PrimFloat.float) : bool :=
  match FloatOps.Prim2SF f with
  | SpecFloat.S754_zero false => mant x =? 0
  | SpecFloat.S754_finite false m e =>
      let low := Z.min e (expo x) in
      Z.pos m * 2 ^ (e - low) =? mant x * 2 ^ (expo x - low)
  | _ => false
  end.

Definition binary64 (n : Z) : PrimFloat.float :=
  PrimFloat.of_uint63 (Uint63.of_Z n).

(** [completed / total] and [(completed / total) * 100] in the model and
    in binary64. *)
Definition agreesAt (completed total : Z) : bool :=
  sameNumber (divide completed total)
             (PrimFloat.div (binary64 completed) (binary64 total))
  && sameNumber (times (divide completed total) 100)
                (PrimFloat.mul (PrimFloat.div (binary64 completed) (binary64 total))
                               (binary64 100)).

(** The model gives the binary64 result for every count of completed todos
    among up to 64 todos, and at the largest array lengths. *)
Lemma model_agrees_with_binary64 :
  forallb (fun total =>
             forallb (fun completed => agreesAt (Z.of_nat completed) (Z.of_nat total))
                     (seq 0 (S total)))
          (seq 1 64) = true
  /\ agreesAt 1 4294967295 = true
  /\ agreesAt 4294967294 4294967295 = true
  /\ agreesAt 2147483647 4294967295 = true.
Proof. vm_compute. auto. Qed.

End Float64Facts.

(** ** The completion percentage *)
Module PercentageFacts.

Import Selectors.
#[local] Open Scope Z_scope.

Lemma completionPercentage_bounds (total completed : Z) :
  0 <= completed <= total -> 0 <= completionPercentage total completed <= 100.
Proof.
  intros Hc. unfold completionPercentage.
  destruct (Z.gtb_spec total 0) as [Hpos|_]; [|lia].
  unfold Float64.divide.
  destruct (@Float64Facts.nearest_bounds completed total 1) as (He & Hm);
    try lia; [simpl; lia|].
  destruct (@Float64Facts.times_bounds (Float64.nearest completed total) 100 1)
    as (He' & Hm'); try lia; [simpl; lia|].
  apply Float64Facts.MathRound_bounds; lia.
Qed.

(** C10. The completion percentage is an integer from 0 to 100, and it is
    0 when the list of todos is empty. *)
Theorem completion_percentage_range (todos : TodoSlice.State) :
  0 <= selectTodosCompletionPercentage todos <= 100
  /\ (TodoSlice.list todos = [] -> selectTodosCompletionPercentage todos = 0).
Proof.
  unfold selectTodosCompletionPercentage, selectTodosCount,
    selectCompletedTodosCount, selectCompletedTodos, selectTodos.
  split.
  - apply completionPercentage_bounds. split; [lia|].
    apply Nat2Z.inj_le. apply filter_length_le.
  - intros ->. reflexivity.
Qed.

(** The value is the one of the doubles, not the one of the exact
    quotient: 29 of 200 is 14.5 percent, and the result is 14, because the
    double nearest to 0.145 is below it. One of 8 is 12.5 percent in doubles
    as well, and the result is 13. *)
Lemma completionPercentage_examples :
  completionPercentage 200 29 = 14
  /\ completionPercentage 8 1 = 13
  /\ completionPercentage 3 1 = 33
  /\ completionPercentage 3 2 = 67
  /\ completionPercentage 5 5 = 100.
Proof. repeat split. Qed.

End PercentageFacts.

(** ** Memoized derivations *)
Module ReselectFacts.

Import Reselect.
#[local] Open Scope Z_scope.




(** The store of the witness: two posts and the filters, at the addresses
    0 and 1. *)
Definition sampleHeap : Heap :=
  [ postsArray [Selectors.mkPost 2 "second" "b" 1; Selectors.mkPost 1 "first" "a" 1];
    filtersObject (Selectors.mkFilters (Some ""%string) "all" "date" "asc") ].

Definition sampleInputs : list Value := [reference 0; reference 1].


(** Without the memo the second computation makes a second array, at
    another address. *)
Lemma compute_twice_makes_two_arrays :
  let first := filteredPostsFn ArraySort.v8 sampleInputs sampleHeap in
  let second := filteredPostsFn ArraySort.v8 sampleInputs (snd first) in
  fst first = reference 2 /\ fst second = reference 3.
Proof. split; reflexivity. Qed.

(** An input that changed makes the derivation compute again. *)
Lemma changed_inputs_recompute
  (computeFn : ComputeFn) (inputs inputs' : list Value)
  (memo : Memo) (heap : Heap) :
  lastInputs memo = Some inputs -> sameInputs inputs inputs' = false ->
  read computeFn inputs' memo heap = recompute computeFn inputs' memo heap.
Proof. intros Hlast Hchanged. unfold read. now rewrite Hlast, Hchanged. Qed.

(** [selectPaginatedPosts] reads [selectFilteredPosts]: two reads of the
    first go through two reads of the second, and on a state that did not
    change the second pair of reads computes nothing. *)
Definition readPaginated (engine : ArraySort.Engine)
  (postsRef filtersRef paginationRef : Value)
  (memos : Memo * Memo) (heap : Heap) : Value * (Memo * Memo) * Heap :=
  let '(filtered, filteredMemo, heap1) :=
    read (filteredPostsFn engine) [postsRef; filtersRef] (fst memos) heap in
  let '(page, pageMemo, heap2) :=
    read paginatedPostsFn [filtered; paginationRef] (snd memos) heap1 in
  (page, (filteredMemo, pageMemo), heap2).

Lemma readPaginated_twice :
  let heap := sampleHeap ++ [paginationObject (Selectors.mkPagination 1 10)] in
  let first := readPaginated ArraySort.v8 (reference 0) (reference 1) (reference 2)
                 (emptyMemo, emptyMemo) heap in
  let second := readPaginated ArraySort.v8 (reference 0) (reference 1) (reference 2)
                  (snd (fst first)) (snd first) in
  second = first
  /\ recomputations (fst (snd (fst second))) = 1%nat
  /\ recomputations (snd (snd (fst second))) = 1%nat.
Proof. repeat split. Qed.

End ReselectFacts.

(** * Further properties of the slices and selectors *)

(** ** The list of todos *)
Module TodoListFacts.

Import TodoSlice.
#[local] Open Scope Z_scope.

Lemma filter_out_absent (a : Z) (l : Datatypes.list Todo) :
  (forall todo, In todo l -> id todo <> a) ->
  filter (fun todo => negb (id todo =? a)) l = l.
Proof.
  intros Habsent. induction l as [|t l IH]; simpl; [reflexivity|].
  destruct (Z.eqb_spec (id t) a) as [Heq|_]; simpl.
  - exfalso. apply (Habsent t); [now left | assumption].
  - f_equal. apply IH. intros todo Hin. apply Habsent. now right.
Qed.

(** X1. [deleteTodo] leaves no todo with the id, however many there were, and
    keeps every other todo; it changes nothing when no todo has the id; a
    second deletion of the same id changes nothing more; and two deletions
    give the same state in either order. *)
Theorem deleteTodo_removes_every_match (state : State) (a b : Z) :
  (forall todo, In todo (list (deleteTodo state a))
                <-> In todo (list state) /\ id todo <> a)
  /\ ((forall todo, In todo (list state) -> id todo <> a) ->
      deleteTodo state a = state)
  /\ deleteTodo (deleteTodo state a) a = deleteTodo state a
  /\ deleteTodo (deleteTodo state a) b = deleteTodo (deleteTodo state b) a.
Proof.
  destruct state as [l st er]. unfold deleteTodo. cbn [list status error].
  split; [|split; [|split]].
  - intros todo. rewrite filter_In, negb_true_iff, Z.eqb_neq. reflexivity.
  - intros Habsent. f_equal. now apply filter_out_absent.
  - f_equal. induction l as [|t l IH]; simpl; [reflexivity|].
    destruct (Z.eqb_spec (id t) a) as [Heq|Hne]; simpl; [assumption|].
    destruct (Z.eqb_spec (id t) a); [contradiction|]. simpl. now f_equal.
  - f_equal. induction l as [|t l IH]; simpl; [reflexivity|].
    destruct (Z.eqb_spec (id t) a), (Z.eqb_spec (id t) b); simpl;
      repeat match goal with
             | |- context [id t =? ?x] => destruct (Z.eqb_spec (id t) x); simpl
             end; try contradiction; try assumption; now f_equal.
Qed.

(** X2. Deleting the id of a todo that was just added removes it together with
    every older todo of that id (two todos added within one millisecond
    have the same id); when no older todo has the id, the state is the one
    before the addition. *)
Theorem deleteTodo_after_addTodo (state : State) (title : string) (now : Z) :
  deleteTodo (addTodo state title now) now = deleteTodo state now
  /\ ((forall todo, In todo (list state) -> id todo <> now) ->
      deleteTodo (addTodo state title now) now = state).
Proof.
  assert (Hfirst : deleteTodo (addTodo state title now) now = deleteTodo state now).
  { unfold deleteTodo, addTodo. cbn [list status error id filter].
    now rewrite Z.eqb_refl. }
  split; [exact Hfirst|]. intros Habsent. rewrite Hfirst.
  destruct state as [l st er]. unfold deleteTodo. cbn [list status error].
  f_equal. now apply filter_out_absent.
Qed.

(** [toggleTodo] with the id of a todo that was just added completes that
    todo and leaves every older todo as it is, also one with the same id. *)
Theorem toggleTodo_after_addTodo (state : State) (title : string) (now : Z) :
  toggleTodo (addTodo state title now) now
  = mkState (mkTodo now title true 1 :: list state) (status state) (error state).
Proof.
  unfold toggleTodo, addTodo. cbn [list status error JS.findIndex id].
  now rewrite Z.eqb_refl.
Qed.

(** X3. A failed [fetchTodos] leaves an error that is never empty, and only a
    response that is ok and whose JSON could be read changes the list; from
    start to end the thunk leaves the status [succeeded] with no error, or
    [failed] with the list it found. *)
Theorem dispatchFetchTodos_outcome (state : State) (outcome : FetchOutcome) :
  match outcome with
  | response true (inr todos) =>
      dispatchFetchTodos state outcome = mkState todos succeeded None
  | _ =>
      exists message,
        dispatchFetchTodos state outcome = mkState (list state) failed (Some message)
        /\ message <> EmptyString
  end.
Proof.
  assert (Hdefault : forall payload,
    JS.orDefault payload "Failed to fetch todos" <> EmptyString).
  { intros [[|c m]|]; simpl; discriminate. }
  unfold dispatchFetchTodos.
  destruct outcome as [message|[|] [message|todos]]; cbn -[JS.orDefault];
    try reflexivity; eexists; (split; [reflexivity | apply Hdefault]).
Qed.

End TodoListFacts.

(** ** Strings: [trim] *)
Module TrimFacts.

Lemma trimStart_twice (s : string) : JS.trimStart (JS.trimStart s) = JS.trimStart s.
Proof.
  induction s as [|c s IH]; simpl; [reflexivity|].
  destruct (JS.isWhiteSpace c) eqn:Hc; [assumption|].
  simpl. now rewrite Hc.
Qed.

Lemma trimEnd_twice (s : string) : JS.trimEnd (JS.trimEnd s) = JS.trimEnd s.
Proof.
  induction s as [|c s IH]; cbn [JS.trimEnd]; [reflexivity|].
  destruct (JS.trimEnd s) as [|d kept] eqn:Hs.
  - destruct (JS.isWhiteSpace c) eqn:Hc; [reflexivity|].
    cbn [JS.trimEnd]. now rewrite Hc.
  - cbn [JS.trimEnd]. cbn [JS.trimEnd] in IH.
    destruct (match JS.trimEnd kept with
              | EmptyString => if JS.isWhiteSpace d then EmptyString
                               else String d EmptyString
              | String a t => String d (String a t)
              end) eqn:Hk; [discriminate|].
    now rewrite IH.
Qed.

(** What [trimEnd] keeps still starts as a string without leading white
    space does. *)
Lemma trimStart_trimEnd (s : string) :
  JS.trimStart s = s -> JS.trimStart (JS.trimEnd s) = JS.trimEnd s.
Proof.
  destruct s as [|c s]; [reflexivity|]. cbn [JS.trimStart].
  destruct (JS.isWhiteSpace c) eqn:Hc.
  - intros Hdrop. exfalso.
    assert (Hlen : String.length (JS.trimStart s) <= String.length s).
    { clear. induction s as [|d s IH]; simpl; [lia|].
      destruct (JS.isWhiteSpace d); simpl; lia. }
    rewrite Hdrop in Hlen. simpl in Hlen. lia.
  - intros _. cbn [JS.trimEnd].
    destruct (JS.trimEnd s); rewrite ?Hc; cbn [JS.trimStart]; now rewrite Hc.
Qed.

Lemma trim_twice (s : string) : JS.trim (JS.trim s) = JS.trim s.
Proof.
  unfold JS.trim.
  rewrite (trimStart_trimEnd (JS.trimStart s)) by apply trimStart_twice.
  apply trimEnd_twice.
Qed.

End TrimFacts.

(** ** The form of the todos *)
Module AppFacts.

Import TodoSlice.

(** X4. [handleAddTodo] adds nothing for an input that is empty or white space
    only; otherwise it adds, at the front, exactly one todo, not completed,
    whose title is the trimmed input: it is not empty and has no white
    space at either end. *)
Theorem handleAddTodo_adds_trimmed_title
  (newTodo : string) (state : State) (now : Z) :
  let after := App.handleAddTodo newTodo state now in
  (JS.trim newTodo = EmptyString /\ after = state)
  \/ (JS.trim newTodo <> EmptyString
      /\ JS.trim (JS.trim newTodo) = JS.trim newTodo
      /\ after = mkState (mkTodo now (JS.trim newTodo) false 1 :: list state)
                         (status state) (error state)).
Proof.
  cbv zeta. unfold App.handleAddTodo.
  pose proof (TrimFacts.trim_twice newTodo) as Htwice.
  destruct (JS.trim newTodo) as [|c title] eqn:Htrim.
  - left. auto.
  - right. repeat split; [discriminate | assumption].
Qed.

End AppFacts.

(** ** Looking a todo up by its id *)
Module ItemFacts.

Import CombinedSelectors.
#[local] Open Scope Z_scope.

Section Find.

Context {A : Type}.
Variables (p : A -> bool) (f : A -> A).
Hypothesis p_f : forall x, p (f x) = p x.

(** After an assignment through the element that [find] returns, [find]
    returns the element as assigned. *)
Lemma find_after_update (l : list A) :
  find p (match JS.findIndex p l with
          | Some i => JS.updateAt i f l
          | None => l
          end)
  = option_map f (find p l).
Proof.
  induction l as [|x l IH]; [reflexivity|]. cbn [JS.findIndex find].
  destruct (p x) eqn:Hx.
  - cbn [JS.updateAt find]. now rewrite p_f, Hx.
  - destruct (JS.findIndex p l) as [i|]; cbn [option_map JS.updateAt find];
      rewrite Hx; exact IH.
Qed.

Lemma find_after_filter_out (l : list A) :
  find p (filter (fun x => negb (p x)) l) = None.
Proof.
  induction l as [|x l IH]; [reflexivity|]. cbn [filter].
  destruct (p x) eqn:Hx; cbn [negb]; [exact IH|].
  cbn [find]. now rewrite Hx.
Qed.

End Find.

Definition withTodos (state : RootState) (todos : TodoSlice.State) : RootState :=
  mkRootState todos (user state) (posts state).

(** X5. What [createSelectItemById('todo')(id)] returns follows the actions on
    that id: after [toggleTodo] it is the todo it was with [completed]
    negated (and still none when there was none), after [deleteTodo] there
    is none, and after [addTodo] read at that id it is the new todo, also
    when an older todo has the same id. *)
Theorem selected_todo_follows_the_actions
  (state : RootState) (id : Z) (title : string) :
  createSelectItemById "todo" id
    (withTodos state (TodoSlice.toggleTodo (todos state) id))
  = match createSelectItemById "todo" id state with
    | todoItem todo => todoItem (TodoSlice.flipCompleted todo)
    | other => other
    end
  /\ createSelectItemById "todo" id
       (withTodos state (TodoSlice.deleteTodo (todos state) id))
     = undefinedItem
  /\ createSelectItemById "todo" id
       (withTodos state (TodoSlice.addTodo (todos state) title id))
     = todoItem (TodoSlice.mkTodo id title false 1).
Proof.
  unfold createSelectItemById, withTodos. cbn [String.eqb Ascii.eqb Bool.eqb todos].
  set (p := fun todo : TodoSlice.Todo => TodoSlice.id todo =? id).
  split; [|split].
  - assert (Hlist : TodoSlice.list (TodoSlice.toggleTodo (todos state) id)
      = match JS.findIndex p (TodoSlice.list (todos state)) with
        | Some i => JS.updateAt i TodoSlice.flipCompleted (TodoSlice.list (todos state))
        | None => TodoSlice.list (todos state)
        end).
    { unfold TodoSlice.toggleTodo. fold p.
      now destruct (JS.findIndex p (TodoSlice.list (todos state))). }
    rewrite Hlist, (find_after_update p TodoSlice.flipCompleted) by reflexivity.
    now destruct (find p (TodoSlice.list (todos state))).
  - unfold TodoSlice.deleteTodo. cbn [TodoSlice.list].
    change (fun todo : TodoSlice.Todo => negb (TodoSlice.id todo =? id))
      with (fun todo => negb (p todo)).
    now rewrite find_after_filter_out.
  - unfold TodoSlice.addTodo. cbn [TodoSlice.list find]. unfold p at 1.
    cbn [TodoSlice.id]. now rewrite Z.eqb_refl.
Qed.

(** For a type of item that it does not know the selector returns [null],
    and for 'user' it returns the user data whatever the id is. *)
Lemma createSelectItemById_other_types (state : RootState) (id : Z) :
  createSelectItemById "user" id state = userItem (UserSlice.userData (user state))
  /\ createSelectItemById "comment" id state = nullItem.
Proof. split; reflexivity. Qed.

End ItemFacts.

(** ** The session of the user *)
Module SessionFacts.

Import UserSlice.
#[local] Open Scope Z_scope.

(** What every state of the slice has in common: the user is
    authenticated exactly when there is a token, an authenticated user has
    a time of last login and no failed attempt counted, and the count of
    failed attempts is never negative. *)
Definition sessionInvariant (state : State) : Prop :=
  (isAuthenticated state = true <-> token state <> None)
  /\ (isAuthenticated state = true ->
      lastLoginTime state <> None /\ loginAttempts state = 0)
  /\ 0 <= loginAttempts state.

Lemma dispatch_keeps_sessionInvariant (state : State) (step : Action * string) :
  sessionInvariant state -> sessionInvariant (dispatch state step).
Proof.
  unfold sessionInvariant, dispatch. intros (Htoken & Hauth & Hcount).
  destruct step as [action isoNow].
  destruct action as [|payload| | |[|user tok|payload]|[| |payload]|[|payload|[message|]]];
    cbn [fst snd reducer clearError resetLoginAttempts expireToken
         loginUserReducer logoutUserReducer fetchUserProfileReducer];
    unfold updateProfile;
    try (destruct (userData state));
    try (destruct (JS.includes message "token"));
    cbn [isAuthenticated token lastLoginTime loginAttempts isLoading error userData];
    repeat split; try tauto; try lia; try discriminate; try congruence;
    try (intros ?; apply Hauth; assumption).
Qed.

(** X6. After every sequence of actions of the slice from its initial
    state, whatever their payloads and whenever they are reduced, an action
    whose case reducer throws included: the user is authenticated exactly
    when there is a token, an authenticated user has a time of last login
    and no failed attempt counted, and the count of failed attempts is not
    negative. *)
Theorem session_invariant_always (steps : list (Action * string)) :
  sessionInvariant (fold_left dispatch steps initialState).
Proof.
  assert (Hfrom : forall state,
    sessionInvariant state -> sessionInvariant (fold_left dispatch steps state)).
  { induction steps as [|step steps IH]; intros state Hstate; simpl; [assumption|].
    apply IH. now apply dispatch_keeps_sessionInvariant. }
  apply Hfrom. unfold sessionInvariant, initialState. simpl.
  repeat split; try discriminate; try lia; intros H; now elim H.
Qed.

(** X7. [loginUser] ends fulfilled exactly for the password 'password' and the
    username of one of the mock users, with that user and a token that is
    'mock_token_', the id of the user, '_' and the time; in every other
    case it ends rejected with 'Invalid credentials'. *)
Theorem loginUser_outcome (givenUsername givenPassword : string) (now : Z) :
  match loginUser givenUsername givenPassword now with
  | loginFulfilled user newToken =>
      In user mockUsers /\ username user = givenUsername
      /\ givenPassword = "password"%string
      /\ newToken = ("mock_token_" ++ JS.numberToString (id user) ++ "_"
                     ++ JS.numberToString now)%string
  | loginRejected payload =>
      payload = Some "Invalid credentials"%string
      /\ (givenPassword <> "password"%string
          \/ forall user, In user mockUsers -> username user <> givenUsername)
  | loginPending => False
  end.
Proof.
  unfold loginUser.
  destruct (find _ mockUsers) as [user|] eqn:Hfind.
  - apply find_some in Hfind. destruct Hfind as (Hin & Hname).
    apply String.eqb_eq in Hname.
    destruct (String.eqb_spec givenPassword "password") as [->|Hwrong]; cbn [negb].
    + auto.
    + auto.
  - split; [reflexivity|]. right. intros user Hin Hname.
    pose proof (find_none _ _ Hfind user Hin) as Hno. cbn beta in Hno.
    rewrite Hname, String.eqb_refl in Hno. discriminate.
Qed.

(** X8. A profile fetch from start to end, with nothing dispatched in between:
    without a token (none, or the empty string) it ends with the user
    logged out and the error 'No authentication token'; with a token it
    leaves the user data, the token and the authentication as they were
    and clears the error. In both cases the loading flag is off again. *)
Theorem dispatchFetchUserProfile_outcome (state : State) :
  let after := dispatchFetchUserProfile state in
  isLoading after = false
  /\ loginAttempts after = loginAttempts state
  /\ lastLoginTime after = lastLoginTime state
  /\ if noToken state
     then isAuthenticated after = false /\ userData after = None
          /\ token after = None
          /\ error after = Some "No authentication token"%string
     else isAuthenticated after = isAuthenticated state
          /\ userData after = userData state
          /\ token after = token state
          /\ error after = None.
Proof.
  cbv zeta. unfold dispatchFetchUserProfile, dispatch, fetchUserProfile, noToken.
  cbn [fst snd reducer fetchUserProfileReducer token userData].
  destruct (token state) as [[|c t]|]; cbn; repeat split.
Qed.

(** X9. After a login that the thunk fulfils, a profile fetch keeps the user
    logged in, with the user of the given username. *)
Theorem profile_fetch_after_login
  (state : State) (givenUsername isoNow : string) (now : Z) :
  (exists user, In user mockUsers /\ username user = givenUsername) ->
  let loggedIn :=
    loginUserReducer state (loginUser givenUsername "password" now) isoNow in
  let after := dispatchFetchUserProfile loggedIn in
  isAuthenticated after = true
  /\ token after = token loggedIn
  /\ exists user, userData after = Some user /\ username user = givenUsername.
Proof.
  intros (known & Hin & Hname). cbv zeta. subst givenUsername.
  destruct Hin as [<-|[<-|[<-|[]]]]; cbn; repeat split; eexists; split; reflexivity.
Qed.

Lemma profile_fetch_after_login_witness :
  let loggedIn :=
    loginUserReducer initialState (loginUser "jane_smith" "password" 1700000000000)
      "2023-11-14T22:13:20.000Z" in
  isAuthenticated (dispatchFetchUserProfile loggedIn) = true
  /\ token (dispatchFetchUserProfile loggedIn) = token loggedIn
  /\ exists user, userData (dispatchFetchUserProfile loggedIn) = Some user
                  /\ username user = "jane_smith"%string.
Proof.
  apply (@profile_fetch_after_login initialState "jane_smith"
           "2023-11-14T22:13:20.000Z" 1700000000000).
  exists (mkUser 2 "jane_smith" "jane@example.com" "Jane Smith" "user").
  split; [right; left; reflexivity | reflexivity].
Defined.

(** X10. Every rejected login adds one to the count of attempts, and
    [selectCanLogin] is false from three attempts on; the slice itself
    refuses nothing then: a login that is fulfilled after any number of
    rejected ones authenticates the user and sets the count to zero. *)
Theorem rejected_logins_are_counted_not_enforced
  (state : State) (payloads : list (option string)) (isoNow : string)
  (user : User) (newToken : string) :
  let failed :=
    fold_left (fun s payload => loginUserReducer s (loginRejected payload) isoNow)
              payloads state in
  let after := loginUserReducer failed (loginFulfilled user newToken) isoNow in
  loginAttempts failed = loginAttempts state + Z.of_nat (List.length payloads)
  /\ Selectors.selectCanLogin failed
     = (loginAttempts state + Z.of_nat (List.length payloads) <? 3)
  /\ isAuthenticated after = true
  /\ loginAttempts after = 0
  /\ Selectors.selectCanLogin after = true.
Proof.
  cbv zeta.
  assert (Hcount : forall s,
    loginAttempts
      (fold_left (fun s payload => loginUserReducer s (loginRejected payload) isoNow)
                 payloads s)
    = loginAttempts s + Z.of_nat (List.length payloads)).
  { induction payloads as [|payload payloads IH]; intros s.
    - simpl. lia.
    - cbn [fold_left List.length]. rewrite IH. cbn [loginUserReducer loginAttempts]. lia. }
  unfold Selectors.selectCanLogin. rewrite Hcount. repeat split.
Qed.

End SessionFacts.

(** ** Counts of todos *)
Module TodoCountFacts.

Import Selectors.
#[local] Open Scope Z_scope.

Lemma nearest_of_equal (total : Z) :
  0 < total -> Float64.nearest total total = Float64.mkDouble (2 ^ 52) (-52).
Proof.
  intros Hpos. unfold Float64.nearest, Float64.floorLog2.
  destruct (Z.eqb_spec total 0); [lia|].
  rewrite Z.sub_diag. change (0 <=? 0) with true. cbv iota.
  change (2 ^ 0) with 1. rewrite Z.mul_1_r, Z.leb_refl.
  change (0 <=? 0 - 52) with false. cbv iota. f_equal.
  unfold Float64.roundHalfEven. change (- (0 - 52)) with 52.
  rewrite (Z.mul_comm total), Z.div_mul, Z.mod_mul by lia.
  destruct (Z.compare_spec (2 * 0) total); lia.
Qed.

Lemma completionPercentage_all (total : Z) :
  0 < total -> completionPercentage total total = 100.
Proof.
  intros Hpos. unfold completionPercentage, Float64.divide.
  destruct (Z.gtb_spec total 0); [|lia].
  now rewrite nearest_of_equal.
Qed.

Lemma completionPercentage_none (total : Z) : completionPercentage total 0 = 0.
Proof. unfold completionPercentage. now destruct (total >? 0). Qed.

(** X11. Every todo is either completed or pending: the two counts add up to
    the count of all todos, the two lists together are the list of all
    todos in another order, and the count of pending todos of the
    dashboard, [totalTodos - completedTodos], is the count of the pending
    todos. *)
Theorem completed_and_pending_split_the_todos (todos : TodoSlice.State)
  (posts favoritePosts : list Post) (draftCount : Z) :
  selectCompletedTodosCount todos + selectPendingTodosCount todos
  = selectTodosCount todos
  /\ Permutation (selectCompletedTodos todos ++ selectPendingTodos todos)
                 (selectTodos todos)
  /\ pendingTodos (dashboardStats (selectTodosCount todos)
                     (selectCompletedTodosCount todos) posts draftCount
                     favoritePosts)
     = selectPendingTodosCount todos.
Proof.
  unfold selectCompletedTodosCount, selectPendingTodosCount, selectTodosCount,
    selectCompletedTodos, selectPendingTodos, dashboardStats. cbn [pendingTodos].
  pose proof (filter_length (fun todo => TodoSlice.completed todo)
                (selectTodos todos)) as Hsplit.
  split; [lia|]. split; [|lia].
  clear Hsplit. induction (selectTodos todos) as [|todo l IH]; simpl; [constructor|].
  destruct (TodoSlice.completed todo); simpl.
  - now constructor.
  - rewrite <- Permutation_middle. now constructor.
Qed.

(** X12. The completion percentage is 100 when there are todos and all are
    completed, and 0 when none is completed. *)
Theorem completion_percentage_at_the_ends (todos : TodoSlice.State) :
  (TodoSlice.list todos <> [] ->
   forallb TodoSlice.completed (TodoSlice.list todos) = true ->
   selectTodosCompletionPercentage todos = 100)
  /\ (forallb (fun todo => negb (TodoSlice.completed todo)) (TodoSlice.list todos)
      = true ->
      selectTodosCompletionPercentage todos = 0).
Proof.
  unfold selectTodosCompletionPercentage, selectTodosCount,
    selectCompletedTodosCount, selectCompletedTodos, selectTodos.
  split.
  - intros Hsome Hall.
    assert (Hfilter : filter (fun todo => TodoSlice.completed todo)
                             (TodoSlice.list todos) = TodoSlice.list todos).
    { clear Hsome. induction (TodoSlice.list todos) as [|todo l IH]; simpl in *;
        [reflexivity|].
      apply andb_true_iff in Hall. destruct Hall as (-> & Hall).
      f_equal. now apply IH. }
    rewrite Hfilter. apply completionPercentage_all.
    destruct (TodoSlice.list todos); [contradiction | simpl; lia].
  - intros Hnone.
    assert (Hfilter : filter (fun todo => TodoSlice.completed todo)
                             (TodoSlice.list todos) = []).
    { induction (TodoSlice.list todos) as [|todo l IH]; simpl in *; [reflexivity|].
      apply andb_true_iff in Hnone. destruct Hnone as (Hnot & Hnone).
      apply negb_true_iff in Hnot. rewrite Hnot. now apply IH. }
    rewrite Hfilter. apply completionPercentage_none.
Qed.

End TodoCountFacts.

(** ** The pages of a collection *)
Module PagesFacts.

Import Selectors.
#[local] Open Scope Z_scope.

Lemma page_is_firstn_skipn (filtered : list Post) (page pageSize : Z) :
  1 <= page -> 0 <= pageSize ->
  paginatedPosts filtered (mkPagination page pageSize)
  = firstn (Z.to_nat pageSize) (skipn (Z.to_nat ((page - 1) * pageSize)) filtered).
Proof.
  intros Hpage Hsize. unfold paginatedPosts. cbn [currentPage itemsPerPage].
  rewrite SliceFacts.slice_from_start by nia. do 2 f_equal. lia.
Qed.

Lemma firstn_plus {A : Type} (a b : nat) :
  forall l : list A, firstn (a + b) l = firstn a l ++ firstn b (skipn a l).
Proof.
  induction a as [|a IH]; intros [|x l]; simpl; try reflexivity.
  - now rewrite firstn_nil.
  - now rewrite IH.
Qed.

(** X13. The pages 1 to [pages] of a collection, one after the other, are its
    first [pages * pageSize] records in their order, each once; with enough
    pages they are the whole collection. A page has [pageSize] records, or
    the records that are left from its start when these are fewer. *)
Theorem pages_cover_the_collection
  (filtered : list Post) (pageSize : Z) (pages : nat) :
  0 < pageSize ->
  let pageAt := fun page : nat =>
    paginatedPosts filtered (mkPagination (Z.of_nat page) pageSize) in
  List.concat (map pageAt (seq 1 pages))
  = firstn (pages * Z.to_nat pageSize) filtered
  /\ ((List.length filtered <= pages * Z.to_nat pageSize)%nat ->
      List.concat (map pageAt (seq 1 pages)) = filtered)
  /\ forall page : nat, (1 <= page)%nat ->
       List.length (pageAt page)
       = Nat.min (Z.to_nat pageSize)
                 (List.length filtered - (page - 1) * Z.to_nat pageSize).
Proof.
  intros Hsize. cbv zeta.
  assert (Hpage : forall page : nat, (1 <= page)%nat ->
    paginatedPosts filtered (mkPagination (Z.of_nat page) pageSize)
    = firstn (Z.to_nat pageSize)
             (skipn ((page - 1) * Z.to_nat pageSize) filtered)).
  { intros page Hp. rewrite page_is_firstn_skipn by lia. do 2 f_equal. nia. }
  assert (Hcover :
    List.concat (map (fun page : nat =>
                   paginatedPosts filtered (mkPagination (Z.of_nat page) pageSize))
                (seq 1 pages))
    = firstn (pages * Z.to_nat pageSize) filtered).
  { induction pages as [|n IH]; [reflexivity|].
    rewrite seq_S, map_app, concat_app, IH. cbn [map List.concat].
    rewrite app_nil_r, Hpage by lia.
    replace (1 + n - 1)%nat with n by lia.
    replace (S n * Z.to_nat pageSize)%nat
      with (n * Z.to_nat pageSize + Z.to_nat pageSize)%nat by lia.
    symmetry. apply firstn_plus. }
  split; [exact Hcover|]. split.
  - intros Henough. rewrite Hcover. now apply firstn_all2.
  - intros page Hp. rewrite Hpage by assumption.
    now rewrite length_firstn, length_skipn.
Qed.

Lemma pages_cover_the_collection_witness :
  List.concat (map (fun page : nat =>
                 paginatedPosts (PaginationFacts.numberedPosts 25)
                   (mkPagination (Z.of_nat page) 10))
              [1; 2; 3]%nat)
  = PaginationFacts.numberedPosts 25.
Proof.
  exact (proj1 (proj2 (@pages_cover_the_collection
                         (PaginationFacts.numberedPosts 25) 10 3 ltac:(lia)))
               ltac:(simpl; lia)).
Defined.

End PagesFacts.

(** ** What is shown of the user *)
Module UserViewFacts.

Import Selectors.

Lemma orDefault_not_empty (value : option string) (default : string) :
  default <> EmptyString -> JS.orDefault value default <> EmptyString.
Proof. destruct value as [[|c s]|]; simpl; auto; discriminate. Qed.

(** X14. The display name and the role are never empty: without user data they
    are 'Guest' and 'guest'; with user data the display name is the name,
    or the username when the name is empty, or 'Guest' when both are, and
    the role is the role of the user data, or 'guest' when that is empty.
    The three
    permissions of an administrator are granted exactly when there is user
    data whose role is 'admin', whether the user is authenticated or not;
    creating and editing posts are granted exactly to an authenticated
    user. *)
Theorem display_name_role_and_permissions (user : UserSlice.State) :
  selectUserDisplayName user <> EmptyString
  /\ selectUserRole user <> EmptyString
  /\ (UserSlice.userData user = None ->
      selectUserDisplayName user = "Guest"%string
      /\ selectUserRole user = "guest"%string)
  /\ (forall data, UserSlice.userData user = Some data ->
      selectUserDisplayName user
      = match UserSlice.name data, UserSlice.username data with
        | String _ _ as name, _ => name
        | EmptyString, (String _ _ as username) => username
        | EmptyString, EmptyString => "Guest"%string
        end
      /\ selectUserRole user
         = match UserSlice.role data with
           | String _ _ as role => role
           | EmptyString => "guest"%string
           end)
  /\ (canDeletePosts (selectUserPermissions user) = true
      <-> exists data, UserSlice.userData user = Some data
                       /\ UserSlice.role data = "admin"%string)
  /\ canManageUsers (selectUserPermissions user)
     = canDeletePosts (selectUserPermissions user)
  /\ canViewAdminPanel (selectUserPermissions user)
     = canDeletePosts (selectUserPermissions user)
  /\ canCreatePosts (selectUserPermissions user) = UserSlice.isAuthenticated user
  /\ canEditPosts (selectUserPermissions user) = UserSlice.isAuthenticated user.
Proof.
  unfold selectUserDisplayName, selectUserRole, selectUserPermissions, selectIsAdmin,
    selectUserRole.
  cbn [canDeletePosts canManageUsers canViewAdminPanel canCreatePosts canEditPosts].
  split; [|split; [|split; [|split; [|split]]]].
  - apply orDefault_not_empty, orDefault_not_empty. discriminate.
  - apply orDefault_not_empty. discriminate.
  - intros ->. split; reflexivity.
  - intros data ->. cbn [option_map JS.orDefault]. split.
    + now destruct (UserSlice.name data), (UserSlice.username data).
    + now destruct (UserSlice.role data).
  - destruct (UserSlice.userData user) as [data|]; cbn [option_map JS.orDefault].
    + destruct (UserSlice.role data) as [|c r] eqn:Hrole.
      * split; [discriminate | intros (d & Hd & Hr); injection Hd as <-; congruence].
      * rewrite String.eqb_eq. split.
        -- intros Hadmin. exists data. rewrite Hrole. auto.
        -- intros (d & Hd & Hr). injection Hd as <-. congruence.
    + split; [discriminate | intros (d & Hd & _); discriminate].
  - auto.
Qed.

End UserViewFacts.

(** ** The results of a search *)
Module SearchFacts.

Import Selectors.
#[local] Open Scope Z_scope.

Lemma toLowerChar_twice (c : ascii) :
  JS.toLowerChar (JS.toLowerChar c) = JS.toLowerChar c.
Proof. destruct c as [[] [] [] [] [] [] [] []]; reflexivity. Qed.

Lemma toLowerCase_twice (s : string) :
  JS.toLowerCase (JS.toLowerCase s) = JS.toLowerCase s.
Proof.
  induction s as [|c s IH]; simpl; [reflexivity|].
  now rewrite toLowerChar_twice, IH.
Qed.

(** The filters with another search term. *)
Definition withSearch (filters : Filters) (term : option string) : Filters :=
  mkFilters term (category filters) (sortBy filters) (sortOrder filters).

(** X15. Two search terms that differ in the case of their letters only give
    the same filtered posts, in the same order. *)
Theorem search_term_case_is_ignored
  (engine : ArraySort.Engine) (posts : list Post) (filters : Filters)
  (term term' : string) :
  JS.toLowerCase term = JS.toLowerCase term' ->
  filteredPosts engine posts (withSearch filters (Some term))
  = filteredPosts engine posts (withSearch filters (Some term')).
Proof.
  intros Hsame. unfold filteredPosts, withSearch. cbn [search].
  change (comparePosts (mkFilters (Some term) (category filters) (sortBy filters)
                          (sortOrder filters)))
    with (comparePosts (mkFilters (Some term') (category filters) (sortBy filters)
                          (sortOrder filters))).
  destruct term as [|c t], term' as [|c' t']; try reflexivity; try discriminate.
  cbv zeta. now rewrite Hsame.
Qed.

Lemma search_term_case_is_ignored_witness :
  filteredPosts ArraySort.v8 (PaginationFacts.numberedPosts 3)
    (withSearch (mkFilters None "all" "date" "desc") (Some "TITLE"%string))
  = filteredPosts ArraySort.v8 (PaginationFacts.numberedPosts 3)
      (withSearch (mkFilters None "all" "date" "desc") (Some "Title"%string)).
Proof.
  apply (@search_term_case_is_ignored ArraySort.v8
           (PaginationFacts.numberedPosts 3) (mkFilters None "all" "date" "desc")
           "TITLE" "Title").
  reflexivity.
Defined.

Lemma toLowerCase_app (a b : string) :
  JS.toLowerCase (a ++ b) = (JS.toLowerCase a ++ JS.toLowerCase b)%string.
Proof. induction a as [|c a IH]; simpl; [reflexivity | now rewrite IH]. Qed.

(** X16. For titles, bodies and search terms made of code units below 256
    (on which [toLowerCase] maps every code unit by itself), a post of the
    collection is among the filtered posts for every search term that is a
    part of its title or of its body as it is written there. *)
Theorem post_is_found_by_part_of_its_text
  (engine : ArraySort.Engine) (posts : list Post) (filters : Filters)
  (term : string) (post : Post) :
  In post posts -> term <> EmptyString ->
  StringFacts.contains (title post) term \/ StringFacts.contains (body post) term ->
  In post (filteredPosts engine posts (withSearch filters (Some term))).
Proof.
  intros Hin Hterm Hpart. unfold filteredPosts, withSearch. cbn [search].
  destruct term as [|c term]; [contradiction|]. cbv zeta.
  eapply Permutation_in; [apply ArraySort.sort_permutation|].
  apply filter_In. split; [assumption|].
  unfold matchesSearch. apply orb_true_iff.
  assert (Hlower : forall field,
    StringFacts.contains field (String c term) ->
    JS.includes (JS.toLowerCase field) (JS.toLowerCase (String c term)) = true).
  { intros field (before & after & ->). apply StringFacts.includes_contains.
    exists (JS.toLowerCase before), (JS.toLowerCase after).
    now rewrite !toLowerCase_app. }
  destruct Hpart as [Htitle|Hbody]; [left | right]; now apply Hlower.
Qed.

Lemma post_is_found_by_part_of_its_text_witness :
  In (mkPost 2 "Redux Toolkit" "state management" 1)
     (filteredPosts ArraySort.v8
        [mkPost 1 "React" "components" 1;
         mkPost 2 "Redux Toolkit" "state management" 1]
        (withSearch (mkFilters None "all" "date" "desc") (Some "Tool"%string))).
Proof.
  apply (@post_is_found_by_part_of_its_text ArraySort.v8
           [mkPost 1 "React" "components" 1;
            mkPost 2 "Redux Toolkit" "state management" 1]
           (mkFilters None "all" "date" "desc") "Tool"
           (mkPost 2 "Redux Toolkit" "state management" 1)).
  - right. left. reflexivity.
  - discriminate.
  - left. exists "Redux "%string, "kit"%string. reflexivity.
Defined.


End SearchFacts.

(** ** The headers of a request *)
Module HeadersFacts.

Import ApiSlice.

Lemma valuesOf_cons (n v : string) (rest : Headers) (name : string) :
  valuesOf ((n, v) :: rest) name
  = if sameName n name then v :: valuesOf rest name else valuesOf rest name.
Proof. unfold valuesOf. cbn [filter fst]. now destruct (sameName n name). Qed.

Lemma removeName_cons (n v : string) (rest : Headers) (name : string) :
  removeName name ((n, v) :: rest)
  = if sameName n name then removeName name rest
    else (n, v) :: removeName name rest.
Proof. unfold removeName. cbn [filter fst]. now destruct (sameName n name). Qed.

Lemma valuesOf_removeName (headers : Headers) (name name' : string) :
  valuesOf (removeName name headers) name'
  = if sameName name name' then [] else valuesOf headers name'.
Proof.
  induction headers as [|[n v] rest IH].
  - now destruct (sameName name name').
  - rewrite removeName_cons, valuesOf_cons.
    unfold sameName in *.
    destruct (String.eqb_spec (byteLowercase n) (byteLowercase name)) as [Hn|Hn].
    + rewrite IH, Hn. now destruct (String.eqb _ _).
    + rewrite valuesOf_cons, IH. unfold sameName.
      destruct (String.eqb_spec (byteLowercase name) (byteLowercase name')) as [Hnn|Hnn];
        [|reflexivity].
      destruct (String.eqb_spec (byteLowercase n) (byteLowercase name'));
        [congruence | reflexivity].
Qed.

(** After a header is set in a list, the name has the one value set, and
    every other name has the values it had. *)
Lemma valuesOf_setInList (headers : Headers) (name value name' : string) :
  valuesOf (setInList headers name value) name'
  = if sameName name name' then [value] else valuesOf headers name'.
Proof.
  induction headers as [|[n v] rest IH]; cbn [setInList].
  - rewrite valuesOf_cons. reflexivity.
  - destruct (sameName n name) eqn:Hn.
    + rewrite !valuesOf_cons, valuesOf_removeName. unfold sameName in *.
      apply String.eqb_eq in Hn. rewrite Hn.
      now destruct (String.eqb _ _).
    + rewrite !valuesOf_cons, IH. unfold sameName in *.
      destruct (String.eqb_spec (byteLowercase name) (byteLowercase name')) as [Hnn|Hnn];
        [|reflexivity].
      rewrite <- Hnn, Hn. reflexivity.
Qed.

(** The two fixed headers are always accepted. *)
Lemma setHeader_json (headers : Headers) (name : string) :
  isHeaderName name = true ->
  setHeader headers name "application/json"
  = Some (setInList headers name "application/json").
Proof. intros Hname. unfold setHeader. now rewrite Hname. Qed.

Lemma setHeader_authorization (headers : Headers) (value : string) :
  setHeader headers "authorization" value
  = if isHeaderValue (normalize value)
    then Some (setInList headers "authorization" (normalize value))
    else None.
Proof. reflexivity. Qed.

(** What is left of a string that ends with a byte that is no whitespace. *)
Lemma stripTrailing_kept (s : string) :
  allChars (fun c => negb (isWhitespace c)) s = true -> stripTrailing s = s.
Proof.
  induction s as [|c rest IH]; [reflexivity|].
  cbn [allChars stripTrailing]. intros H.
  apply andb_true_iff in H as [Hc Hrest]. rewrite (IH Hrest).
  destruct rest; [|reflexivity].
  now destruct (isWhitespace c).
Qed.

Lemma stripTrailing_app (s t : string) :
  t <> EmptyString -> stripTrailing t = t ->
  stripTrailing (s ++ t) = (s ++ t)%string.
Proof.
  intros Hne Ht. induction s as [|c rest IH]; [exact Ht|].
  cbn [append stripTrailing]. rewrite IH.
  destruct (rest ++ t)%string eqn:E; [|reflexivity].
  destruct rest; [now cbn in E | discriminate].
Qed.

Lemma allChars_app (p : ascii -> bool) (s t : string) :
  allChars p (s ++ t) = allChars p s && allChars p t.
Proof.
  induction s as [|c rest IH]; [reflexivity|].
  cbn [append allChars]. now rewrite IH, andb_assoc.
Qed.

Lemma allChars_impl (p q : ascii -> bool) (s : string) :
  (forall c, p c = true -> q c = true) ->
  allChars p s = true -> allChars q s = true.
Proof.
  intros Hpq. induction s as [|c rest IH]; [reflexivity|].
  cbn [allChars]. rewrite !andb_true_iff. intros [Hc Hrest].
  split; [now apply Hpq | now apply IH].
Qed.

Lemma lastChar_allChars (p : ascii -> bool) (s : string) (c : ascii) :
  allChars p s = true -> lastChar s = Some c -> p c = true.
Proof.
  induction s as [|c' rest IH]; [discriminate|].
  cbn [allChars lastChar]. rewrite andb_true_iff. intros [Hc Hrest].
  destruct rest; [intros [= <-]; exact Hc | now apply IH].
Qed.

Lemma lastChar_app (s t : string) :
  t <> EmptyString -> lastChar (s ++ t) = lastChar t.
Proof.
  intros Hne. induction s as [|c rest IH]; [reflexivity|].
  cbn [append lastChar]. rewrite IH.
  destruct (rest ++ t)%string eqn:E; [|reflexivity].
  destruct rest; [now cbn in E | discriminate].
Qed.

(** A token of visible characters: no whitespace and no NUL in it. *)
Definition plain (c : ascii) : bool :=
  negb (isWhitespace c) && negb (code c =? 0)%N.

Lemma bearer_plain_token (t : string) :
  t <> EmptyString -> allChars plain t = true ->
  normalize ("Bearer " ++ t) = ("Bearer " ++ t)%string
  /\ isHeaderValue ("Bearer " ++ t) = true.
Proof.
  intros Hne Hplain.
  assert (Hws : allChars (fun c => negb (isWhitespace c)) t = true).
  { apply (allChars_impl plain); [|exact Hplain].
    unfold plain. intros c H. now apply andb_true_iff in H as [H _]. }
  split.
  - unfold normalize. change (stripLeading ("Bearer " ++ t)) with ("Bearer " ++ t)%string.
    apply stripTrailing_app; [exact Hne | now apply stripTrailing_kept].
  - unfold isHeaderValue. apply andb_true_iff. split.
    + unfold startsOrEndsWith. rewrite lastChar_app by exact Hne.
      change (firstChar ("Bearer " ++ t)) with (Some "B"%char).
      destruct (lastChar t) as [c|] eqn:El; [|reflexivity].
      pose proof (lastChar_allChars _ _ _ Hws El) as Hc. cbn beta in Hc.
      unfold isWhitespace in Hc. apply negb_true_iff, orb_false_iff in Hc as [_ Hc].
      rewrite Hc. reflexivity.
    + rewrite allChars_app. apply andb_true_iff. split; [reflexivity|].
      apply (allChars_impl plain); [|exact Hplain].
      unfold plain, isWhitespace. intros c H.
      apply andb_true_iff in H as [Hw Hz].
      apply negb_true_iff, orb_false_iff in Hw as [Hn _].
      apply negb_true_iff in Hz. now rewrite Hz, Hn.
Qed.

Lemma firstChar_stripLeading (s : string) (c : ascii) :
  firstChar (stripLeading s) = Some c -> isWhitespace c = false.
Proof.
  induction s as [|c' rest IH]; [discriminate|].
  cbn [stripLeading]. destruct (isWhitespace c') eqn:E; [exact IH|].
  now intros [= <-].
Qed.

Lemma firstChar_stripTrailing (s : string) (c : ascii) :
  firstChar (stripTrailing s) = Some c -> firstChar s = Some c.
Proof.
  destruct s as [|c' rest]; [discriminate|].
  cbn [stripTrailing]. destruct (stripTrailing rest); [|now intros H].
  now destruct (isWhitespace c').
Qed.

Lemma lastChar_stripTrailing (s : string) (c : ascii) :
  lastChar (stripTrailing s) = Some c -> isWhitespace c = false.
Proof.
  induction s as [|c' rest IH]; [discriminate|].
  cbn [stripTrailing]. destruct (stripTrailing rest) as [|k kept].
  - destruct (isWhitespace c') eqn:E; [discriminate|]. now intros [= <-].
  - exact IH.
Qed.

(** A normalized value has no whitespace at its ends: it is a header value
    when it holds no NUL and no newline. *)
Lemma isHeaderValue_normalize (value : string) :
  isHeaderValue (normalize value)
  = allChars (fun c => negb ((code c =? 0)%N || isNewline c)) (normalize value).
Proof.
  unfold isHeaderValue.
  replace (startsOrEndsWith isTabOrSpace (normalize value)) with false;
    [reflexivity|].
  unfold startsOrEndsWith, normalize.
  destruct (firstChar _) as [first|] eqn:Ef; [|reflexivity].
  destruct (lastChar _) as [last|] eqn:El; [|reflexivity].
  apply firstChar_stripTrailing, firstChar_stripLeading in Ef.
  apply lastChar_stripTrailing in El.
  unfold isWhitespace in Ef, El.
  apply orb_false_iff in Ef as [_ ->]. now apply orb_false_iff in El as [_ ->].
Qed.

(** X18. [prepareHeaders] either throws or returns the headers. Without a
    token in the store (none, or an empty one) it returns them with the
    content type and the accepted type 'application/json', whatever they
    had for them, and every other header, the authorization too, as it
    was. With a token, the authorization set is 'Bearer ' and the token
    without the HTTP whitespace at the two ends of that value; when what
    is left holds a NUL, a line feed or a carriage return,
    [prepareHeaders] throws, and otherwise it returns the headers with
    that authorization, the two types, and no other header changed. For a
    token without whitespace and NUL this authorization is 'Bearer ' and
    the token as it is; for the token 'abc ' it is 'Bearer abc'; for a
    token with a line feed inside there is a throw. *)
Theorem prepareHeaders_sets_three_headers
  (headers : Headers) (token : option string) :
  let json := "application/json"%string in
  match token with
  | Some (String _ _ as t) =>
      let authorization := normalize ("Bearer " ++ t) in
      (if isHeaderValue authorization
       then exists result,
           prepareHeaders headers token = Some result
           /\ forall name,
               valuesOf result name
               = if sameName "accept" name then [json]
                 else if sameName "content-type" name then [json]
                 else if sameName "authorization" name then [authorization]
                 else valuesOf headers name
       else prepareHeaders headers token = None)
      /\ isHeaderValue authorization
         = allChars (fun c => negb ((code c =? 0)%N || isNewline c)) authorization
      /\ (allChars plain t = true ->
          authorization = ("Bearer " ++ t)%string
          /\ isHeaderValue authorization = true)
  | _ =>
      exists result,
        prepareHeaders headers token = Some result
        /\ forall name,
            valuesOf result name
            = if sameName "accept" name then [json]
              else if sameName "content-type" name then [json]
              else valuesOf headers name
  end
  /\ prepareHeaders [] (Some "abc "%string)
     = Some [("authorization", "Bearer abc"); ("content-type", json);
             ("accept", json)]%string
  /\ prepareHeaders [] (Some (String "a" (String (ascii_of_nat 10) "b")))
     = None.
Proof.
  cbv zeta. split; [|split; reflexivity].
  assert (Hjson : forall headers', exists result,
             match setHeader headers' "content-type" "application/json" with
             | None => None
             | Some headers => setHeader headers "accept" "application/json"
             end = Some result
             /\ forall name,
                 valuesOf result name
                 = if sameName "accept" name then ["application/json"%string]
                   else if sameName "content-type" name then ["application/json"%string]
                   else valuesOf headers' name).
  { intros headers'. rewrite !setHeader_json by reflexivity.
    eexists. split; [reflexivity|]. intros name. now rewrite !valuesOf_setInList. }
  destruct token as [[|c t]|]; try exact (Hjson headers).
  split; [|split].
  - unfold prepareHeaders. rewrite setHeader_authorization.
    destruct (isHeaderValue (normalize ("Bearer " ++ String c t))); [|reflexivity].
    destruct (Hjson (setInList headers "authorization"
                       (normalize ("Bearer " ++ String c t)))) as [result [Hr Hv]].
    exists result. split; [exact Hr|]. intros name.
    now rewrite Hv, valuesOf_setInList.
  - apply isHeaderValue_normalize.
  - intros Hplain.
    destruct (bearer_plain_token (String c t)) as [Hn Hv]; [discriminate|exact Hplain|].
    now rewrite Hn.
Qed.

End HeadersFacts.

(** ** The error middleware *)
Module StoreFacts.

Import Store.

Section ErrorMiddleware.

Variables Action Value Error : Type.
Variable next : nat -> Action -> Completion Value Error.

(** X19. [errorMiddleware] passes the action on once when that call returns and
    a second time when it throws; what it returns or throws is what its
    last call of [next] did. So an action on which [next] throws both
    times has been passed on twice and its error goes on to the caller; an
    error is kept from the caller only when the second call returns. *)
Theorem errorMiddleware_passes_on_twice (action : Action) (calls : list Action) :
  let first := next (List.length calls) action in
  let second := next (S (List.length calls)) action in
  errorMiddleware next action calls
  = match first with
    | returned value => (returned value, calls ++ [action])
    | thrown _ => (second, calls ++ [action; action])
    end.
Proof.
  cbv zeta. unfold errorMiddleware, callNext.
  destruct (next (List.length calls) action) as [value|error]; [reflexivity|].
  now rewrite length_app, Nat.add_1_r, <- app_assoc.
Qed.

End ErrorMiddleware.

End StoreFacts.

(** ** Sorted lists *)
Module SortedListFacts.

Section Relations.

Context {A : Type}.
Variable R : A -> A -> Prop.

Lemma StronglySorted_app (l1 l2 : list A) :
  StronglySorted R (l1 ++ l2)
  <-> StronglySorted R l1 /\ StronglySorted R l2
      /\ forall x y, In x l1 -> In y l2 -> R x y.
Proof.
  induction l1 as [|a l1 IH]; simpl.
  - split; [intros H; repeat split; [constructor | assumption | intros x y []]
           | now intros (_ & H & _)].
  - split.
    + intros H. apply StronglySorted_inv in H. destruct H as (Hrest & Hall).
      apply IH in Hrest. destruct Hrest as (H1 & H2 & Hcross).
      rewrite Forall_app in Hall. destruct Hall as (Ha1 & Ha2).
      repeat split; [now constructor | assumption |].
      intros x y [<-|Hx] Hy; [|now apply Hcross].
      rewrite Forall_forall in Ha2. now apply Ha2.
    + intros (H1 & H2 & Hcross). apply StronglySorted_inv in H1.
      destruct H1 as (H1 & Ha1). constructor.
      * apply IH. repeat split; auto.
      * rewrite Forall_app. split; [assumption|].
        rewrite Forall_forall. intros y Hy. apply Hcross; auto.
Qed.

Lemma StronglySorted_nth_error (l : list A) :
  StronglySorted R l ->
  forall i j x y, (i < j)%nat ->
    nth_error l i = Some x -> nth_error l j = Some y -> R x y.
Proof.
  induction 1 as [|a l Hsorted IH Hall]; intros i j x y Hij Hx Hy.
  - destruct i; discriminate.
  - destruct j as [|j]; [lia|]. simpl in Hy. destruct i as [|i]; simpl in Hx.
    + injection Hx as <-. rewrite Forall_forall in Hall.
      apply Hall. now apply nth_error_In with j.
    + apply (IH i j); [lia | assumption | assumption].
Qed.

End Relations.

Lemma StronglySorted_rev {A : Type} (R : A -> A -> Prop) (l : list A) :
  StronglySorted (fun x y => R y x) l -> StronglySorted R (rev l).
Proof.
  induction 1 as [|a l Hsorted IH Hall]; simpl; [constructor|].
  apply StronglySorted_app. repeat split; [assumption | repeat constructor |].
  intros x y Hx [<-|[]]. rewrite Forall_forall in Hall.
  apply Hall. now apply in_rev.
Qed.

End SortedListFacts.

(** ** The two sort procedures on a comparator that answers by an order *)
Module SortProcedureFacts.

Import SortedListFacts.
#[local] Open Scope Z_scope.

Section Ordered.

Context {A : Type}.
Variable comparefn : A -> A -> Z.

(** The elements that the order is about, the order, and how the
    comparator answers by it: below zero only for an element that may
    stand before the other, above zero only for one that may stand after
    it, and never zero. *)
Variable valid : A -> Prop.
Variable before : A -> A -> Prop.
Hypothesis before_trans : forall a b c,
  valid a -> valid b -> valid c -> before a b -> before b c -> before a c.
Hypothesis negative_before : forall a b,
  valid a -> valid b -> comparefn a b < 0 -> before a b.
Hypothesis positive_after : forall a b,
  valid a -> valid b -> 0 < comparefn a b -> before b a.
Hypothesis never_zero : forall a b, valid a -> valid b -> comparefn a b <> 0.

Lemma chain_is_sorted (R : A -> A -> Prop) (l : list A) :
  (forall a b c, valid a -> valid b -> valid c -> R a b -> R b c -> R a c) ->
  Forall valid l -> Sorted R l -> StronglySorted R l.
Proof.
  intros Rtrans Hvalid Hchain.
  induction Hchain as [|a l Hchain IH Hhead]; [constructor|].
  apply Forall_cons_iff in Hvalid. destruct Hvalid as (Ha & Hl).
  specialize (IH Hl). constructor; [assumption|].
  destruct Hhead as [|b l Hab]; [constructor|].
  apply StronglySorted_inv in IH. destruct IH as (_ & Hb).
  apply Forall_cons_iff in Hl. destruct Hl as (Hvb & Hvl).
  constructor; [assumption|].
  rewrite Forall_forall in *. intros x Hx.
  apply (Rtrans a b x); auto.
Qed.

(** *** Insertion sort *)

Lemma insertDown_sorted (item : A) (below : list A) :
  valid item -> Forall valid below ->
  StronglySorted (fun x y => before y x) below ->
  StronglySorted (fun x y => before y x) (ArraySort.insertDown comparefn item below).
Proof.
  intros Hitem Hvalid Hsorted.
  induction Hsorted as [|swap below Hsorted IH Hall]; simpl.
  - repeat constructor.
  - apply Forall_cons_iff in Hvalid. destruct Hvalid as (Hswap & Hbelow).
    destruct (Z.leb_spec (comparefn swap item) 0) as [Hle|Hgt].
    + assert (Hbefore : before swap item).
      { apply negative_before; auto. pose proof (never_zero swap item Hswap Hitem). lia. }
      constructor; [now constructor|].
      constructor; [assumption|].
      rewrite Forall_forall in *. intros y Hy.
      apply (before_trans y swap item); auto.
    + constructor; [now apply IH|].
      rewrite <- (ArraySort.insertDown_permutation comparefn item below).
      constructor; [|assumption]. now apply positive_after.
Qed.

Lemma insertionSort_sorted (l : list A) :
  Forall valid l -> StronglySorted before (ArraySort.insertionSort comparefn l).
Proof.
  intros Hvalid. unfold ArraySort.insertionSort. apply StronglySorted_rev.
  assert (Hfold : forall sorted,
    Forall valid sorted -> StronglySorted (fun x y => before y x) sorted ->
    StronglySorted (fun x y => before y x)
      (fold_left (fun sorted item => ArraySort.insertDown comparefn item sorted)
                 l sorted)).
  { induction Hvalid as [|item l Hitem Hl IH]; intros sorted Hvs Hs; simpl;
      [assumption|].
    apply IH.
    - rewrite <- (ArraySort.insertDown_permutation comparefn item sorted).
      now constructor.
    - now apply insertDown_sorted. }
  apply Hfold; constructor.
Qed.

(** *** TimSort on a short array *)

Lemma extendRun_chain (descending : bool) (rest : list A) :
  forall previous, valid previous -> Forall valid rest ->
    Sorted (fun x y => if descending then before y x else before x y)
           (previous :: fst (ArraySort.extendRun comparefn descending previous rest)).
Proof.
  induction rest as [|current rest IH]; intros previous Hprevious Hrest; simpl.
  - repeat constructor.
  - apply Forall_cons_iff in Hrest. destruct Hrest as (Hcurrent & Hrest).
    pose proof (never_zero current previous Hcurrent Hprevious) as Hnz.
    destruct descending.
    + destruct (Z.geb_spec (comparefn current previous) 0) as [Hge|Hlt]; simpl.
      * repeat constructor.
      * specialize (IH current Hcurrent Hrest).
        destruct (ArraySort.extendRun comparefn true current rest) as [run remaining].
        simpl in *. constructor; [assumption|]. constructor.
        now apply negative_before.
    + destruct (Z.ltb_spec (comparefn current previous) 0) as [Hlt|Hge]; simpl.
      * repeat constructor.
      * specialize (IH current Hcurrent Hrest).
        destruct (ArraySort.extendRun comparefn false current rest) as [run remaining].
        simpl in *. constructor; [assumption|]. constructor.
        apply positive_after; auto. lia.
Qed.

Lemma countAndMakeRun_sorted (l : list A) :
  Forall valid l ->
  StronglySorted before (fst (ArraySort.countAndMakeRun comparefn l))
  /\ Forall valid (fst (ArraySort.countAndMakeRun comparefn l))
  /\ Forall valid (snd (ArraySort.countAndMakeRun comparefn l)).
Proof.
  intros Hvalid.
  assert (Hparts : Forall valid (fst (ArraySort.countAndMakeRun comparefn l)
                                 ++ snd (ArraySort.countAndMakeRun comparefn l))).
  { now rewrite <- (ArraySort.countAndMakeRun_permutation comparefn l). }
  apply Forall_app in Hparts. destruct Hparts as (Hrun & Hremaining).
  split; [|split; assumption].
  unfold ArraySort.countAndMakeRun in *.
  destruct l as [|high [|low rest]]; simpl; try (repeat constructor).
  apply Forall_cons_iff in Hvalid. destruct Hvalid as (Hhigh & Hvalid).
  apply Forall_cons_iff in Hvalid. destruct Hvalid as (Hlow & Hrest).
  pose proof (extendRun_chain (comparefn low high <? 0) rest low Hlow Hrest) as Hchain.
  pose proof (never_zero low high Hlow Hhigh) as Hnz.
  destruct (ArraySort.extendRun comparefn (comparefn low high <? 0) low rest)
    as [run remaining].
  cbn [fst snd] in *.
  destruct (Z.ltb_spec (comparefn low high) 0) as [Hlt|Hge]; cbn [fst] in *.
  - change ((rev run ++ [low]) ++ [high]) with (rev (high :: low :: run)).
    apply StronglySorted_rev.
    apply (chain_is_sorted (fun x y => before y x)).
    + intros a b c Ha Hb Hc Hab Hbc. apply (before_trans c b a); auto.
    + now apply Forall_rev in Hrun; rewrite rev_involutive in Hrun.
    + constructor; [assumption|]. constructor. now apply negative_before.
  - apply (chain_is_sorted before).
    + exact before_trans.
    + assumption.
    + constructor; [assumption|]. constructor. apply positive_after; auto. lia.
Qed.

Lemma searchPlace_splits (fuel : nat) :
  forall (sorted : list A) (pivot : A) (left right : nat),
    valid pivot -> Forall valid sorted -> StronglySorted before sorted ->
    (left <= right <= List.length sorted)%nat -> (right - left <= fuel)%nat ->
    (forall i x, (i < left)%nat -> nth_error sorted i = Some x -> before x pivot) ->
    (forall i x, (right <= i)%nat -> nth_error sorted i = Some x -> before pivot x) ->
    let place := ArraySort.searchPlace comparefn fuel sorted pivot left right in
    (forall i x, (i < place)%nat -> nth_error sorted i = Some x -> before x pivot)
    /\ (forall i x, (place <= i)%nat -> nth_error sorted i = Some x -> before pivot x).
Proof.
  induction fuel as [|fuel IH];
    intros sorted pivot left right Hpivot Hvalid Hsorted Hrange Hfuel Hleft Hright;
    cbn [ArraySort.searchPlace]; cbv zeta.
  - split; [assumption|]. intros i x Hi. apply Hright. lia.
  - destruct (Nat.ltb_spec left right) as [Hlt|Hge].
    2:{ split; [assumption|]. intros i x Hi. apply Hright. lia. }
    assert (Hhalf : ((right - left) / 2 < right - left)%nat)
      by (apply Nat.div_lt; lia).
    set (mid := (left + (right - left) / 2)%nat) in *.
    destruct (nth_error sorted mid) as [element|] eqn:Hmid.
    2:{ apply nth_error_None in Hmid. lia. }
    assert (Helement : valid element).
    { rewrite Forall_forall in Hvalid. apply Hvalid. now apply nth_error_In with mid. }
    assert (Hin : forall i x, nth_error sorted i = Some x -> valid x).
    { intros i x Hx. rewrite Forall_forall in Hvalid. apply Hvalid.
      now apply nth_error_In with i. }
    destruct (Z.ltb_spec (comparefn pivot element) 0) as [Hneg|Hpos].
    + apply IH; auto; try lia.
      intros i x Hi Hx.
      destruct (Nat.eq_dec i mid) as [->|Hne].
      * assert (x = element) by congruence. subst x. now apply negative_before.
      * apply (before_trans pivot element x);
          [assumption | assumption | now apply (Hin i)
          | now apply negative_before
          | apply (@StronglySorted_nth_error _ before sorted Hsorted mid i); auto; lia].
    + apply IH; auto; try lia.
      intros i x Hi Hx.
      pose proof (never_zero pivot element Hpivot Helement) as Hnz.
      destruct (Nat.eq_dec i mid) as [->|Hne].
      * assert (x = element) by congruence. subst x. apply positive_after; auto. lia.
      * destruct (Nat.lt_ge_cases i left) as [Hil|Hil]; [now apply (Hleft i)|].
        apply (before_trans x element pivot);
          [now apply (Hin i) | assumption | assumption
          | apply (@StronglySorted_nth_error _ before sorted Hsorted i mid); auto; lia
          | apply positive_after; auto; lia].
Qed.

Lemma binaryInsert_sorted (sorted : list A) (pivot : A) :
  valid pivot -> Forall valid sorted -> StronglySorted before sorted ->
  StronglySorted before (ArraySort.binaryInsert comparefn sorted pivot).
Proof.
  intros Hpivot Hvalid Hsorted. unfold ArraySort.binaryInsert, ArraySort.insertAt.
  set (n := List.length sorted).
  destruct (@searchPlace_splits n sorted pivot 0%nat n Hpivot Hvalid Hsorted)
    as (Hlow & Hhigh); try (unfold n; lia).
  { intros i x Hi Hx. exfalso.
    assert (Hsome : nth_error sorted i <> None) by congruence.
    apply nth_error_Some in Hsome. unfold n in Hi. lia. }
  set (place := ArraySort.searchPlace comparefn n sorted pivot 0 n) in *.
  rewrite <- (firstn_skipn place sorted) in Hsorted.
  apply StronglySorted_app in Hsorted. destruct Hsorted as (Hfirst & Hlast & Hcross).
  apply StronglySorted_app. repeat split; [assumption | |].
  - constructor; [assumption|]. rewrite Forall_forall. intros y Hy.
    apply In_nth_error in Hy. destruct Hy as (i & Hi).
    rewrite nth_error_skipn in Hi. apply (Hhigh (place + i)%nat); [lia | assumption].
  - intros x y Hx [<-|Hy]; [|now apply Hcross].
    apply In_nth_error in Hx. destruct Hx as (i & Hi).
    rewrite nth_error_firstn in Hi.
    destruct (Nat.ltb_spec i place); [|discriminate]. now apply (Hlow i).
Qed.

Lemma timSortShort_sorted (l : list A) :
  Forall valid l -> StronglySorted before (ArraySort.timSortShort comparefn l).
Proof.
  intros Hvalid. unfold ArraySort.timSortShort.
  destruct (countAndMakeRun_sorted l Hvalid) as (Hsorted & Hrun & Hremaining).
  destruct (ArraySort.countAndMakeRun comparefn l) as [run remaining].
  cbn [fst snd] in *. unfold ArraySort.binaryInsertionSort.
  revert run Hsorted Hrun.
  induction Hremaining as [|pivot remaining Hpivot Hremaining IH];
    intros run Hsorted Hrun; simpl; [assumption|].
  apply IH.
  - now apply binaryInsert_sorted.
  - unfold ArraySort.binaryInsert.
    rewrite <- (ArraySort.insertAt_permutation _ pivot run). now constructor.
Qed.

End Ordered.

End SortProcedureFacts.

(** ** The filtered posts are in the order of their sort key *)
Module SortedPostsFacts.

Import Selectors.
#[local] Open Scope Z_scope.

(** One sort value is at most the other: strings by their code units,
    numbers and the time values of dates as numbers. An invalid date is in
    no order with anything. *)
Definition keyLe (v w : SortValue) : Prop :=
  match v, w with
  | text x, text y => String.compare x y <> Gt
  | number x, number y => x <= y
  | date (Some x), date (Some y) => x <= y
  | _, _ => False
  end.

(** [a] may stand before [b] under the filters: its sort value is at most
    that of [b] in ascending order, at least that of [b] otherwise. *)
Definition inOrder (filters : Filters) (a b : Post) : Prop :=
  if String.eqb (sortOrder filters) "asc"
  then keyLe (sortValue filters a) (sortValue filters b)
  else keyLe (sortValue filters b) (sortValue filters a).

(** The sort value of the post is not an invalid date. *)
Definition hasSortKey (filters : Filters) (post : Post) : Prop :=
  sortValue filters post <> date None.

Lemma string_le_cases (x y : string) :
  String.compare x y <> Gt <-> x = y \/ OrderedTypeEx.String_as_OT.lt x y.
Proof.
  pose proof (OrderedTypeEx.String_as_OT.cmp_eq x y) as Heq.
  pose proof (OrderedTypeEx.String_as_OT.cmp_lt x y) as Hlt.
  change (OrderedTypeEx.String_as_OT.cmp x y) with (String.compare x y) in *.
  revert Heq Hlt. destruct (String.compare x y); intros Heq Hlt.
  - split; [intros _; left; now apply Heq | discriminate].
  - split; [intros _; right; now apply Hlt | discriminate].
  - split; [intros H; now elim H|].
    intros [H|H]; [apply Heq in H | apply Hlt in H]; discriminate.
Qed.

Lemma string_le_trans (x y z : string) :
  String.compare x y <> Gt -> String.compare y z <> Gt -> String.compare x z <> Gt.
Proof.
  rewrite !string_le_cases. intros [->|Hxy] [->|Hyz]; auto.
  right. now apply OrderedTypeEx.String_as_OT.lt_trans with y.
Qed.

Lemma keyLe_trans (filters : Filters) (a b c : Post) :
  keyLe (sortValue filters a) (sortValue filters b) ->
  keyLe (sortValue filters b) (sortValue filters c) ->
  keyLe (sortValue filters a) (sortValue filters c).
Proof.
  unfold sortValue.
  destruct (String.eqb (sortBy filters) "title");
    [cbn; apply string_le_trans|].
  destruct (String.eqb (sortBy filters) "author"); [cbn; lia|].
  destruct (JS.newDate (id a)), (JS.newDate (id b)), (JS.newDate (id c));
    cbn; try tauto; lia.
Qed.

Lemma text_answers (x y : string) :
  (JS.strGt x y = false /\ String.compare x y <> Gt
   \/ JS.strGt x y = true /\ String.compare y x <> Gt)
  /\ (JS.strLt x y = false /\ String.compare y x <> Gt
      \/ JS.strLt x y = true /\ String.compare x y <> Gt).
Proof.
  unfold JS.strGt, JS.strLt. rewrite (String.compare_antisym x y).
  destruct (String.compare y x); cbn; split; (left + right); split;
    (reflexivity || discriminate).
Qed.

Lemma number_answers (x y : Z) :
  ((x >? y) = false /\ x <= y \/ (x >? y) = true /\ y <= x)
  /\ ((x <? y) = false /\ y <= x \/ (x <? y) = true /\ x <= y).
Proof.
  destruct (Z.gtb_spec x y), (Z.ltb_spec x y); split; (left + right); split;
    (reflexivity || lia).
Qed.

Lemma comparePosts_answers (filters : Filters) (a b : Post) :
  hasSortKey filters a -> hasSortKey filters b ->
  (comparePosts filters a b = -1 /\ inOrder filters a b)
  \/ (comparePosts filters a b = 1 /\ inOrder filters b a).
Proof.
  unfold hasSortKey, comparePosts, inOrder, sortValue.
  destruct (String.eqb (sortBy filters) "title").
  - intros _ _. cbn [gt lt keyLe].
    destruct (text_answers (JS.toLowerCase (title a)) (JS.toLowerCase (title b)))
      as ([(-> & H)|(-> & H)] & [(-> & H')|(-> & H')]);
      destruct (String.eqb (sortOrder filters) "asc"); auto.
  - destruct (String.eqb (sortBy filters) "author").
    + intros _ _. cbn [gt lt keyLe].
      destruct (number_answers (userId a) (userId b))
        as ([(-> & H)|(-> & H)] & [(-> & H')|(-> & H')]);
        destruct (String.eqb (sortOrder filters) "asc"); auto.
    + destruct (JS.newDate (id a)) as [x|], (JS.newDate (id b)) as [y|];
        intros Ha Hb; try (now elim Ha); try (now elim Hb).
      cbn [gt lt keyLe JS.dateGt JS.dateLt].
      destruct (number_answers x y)
        as ([(-> & H)|(-> & H)] & [(-> & H')|(-> & H')]);
        destruct (String.eqb (sortOrder filters) "asc"); auto.
Qed.

(** X20. For posts that all have a sort key (with the key 'date', ids that are
    valid times; with 'title' or 'author', any posts), the filtered posts
    come in the order of the key, ascending for 'asc' and descending for
    every other sort order, on both engines, and posts with equal keys
    next to one another. *)
Theorem filtered_posts_are_in_key_order (posts : list Post) (filters : Filters) :
  Forall (hasSortKey filters) posts ->
  StronglySorted (inOrder filters) (filteredPosts ArraySort.v8 posts filters)
  /\ StronglySorted (inOrder filters)
       (filteredPosts ArraySort.spiderMonkey posts filters).
Proof.
  intros Hkeys. unfold filteredPosts.
  set (filtered := match search filters with
                   | Some (String _ _ as term) =>
                       filter (matchesSearch (JS.toLowerCase term)) posts
                   | _ => posts
                   end).
  assert (Hfiltered : Forall (hasSortKey filters) filtered).
  { unfold filtered. destruct (search filters) as [[|c term]|]; try assumption.
    rewrite Forall_forall in *. intros post Hin. apply filter_In in Hin.
    now apply Hkeys. }
  assert (Htrans : forall a b c : Post,
    hasSortKey filters a -> hasSortKey filters b -> hasSortKey filters c ->
    inOrder filters a b -> inOrder filters b c -> inOrder filters a c).
  { intros a b c _ _ _. unfold inOrder.
    destruct (String.eqb (sortOrder filters) "asc"); intros Hab Hbc.
    - now apply keyLe_trans with b.
    - now apply keyLe_trans with b. }
  assert (Hneg : forall a b : Post,
    hasSortKey filters a -> hasSortKey filters b ->
    comparePosts filters a b < 0 -> inOrder filters a b).
  { intros a b Ha Hb Hlt.
    destruct (comparePosts_answers filters a b Ha Hb) as [(_ & H)|(H & _)];
      [assumption | lia]. }
  assert (Hpos : forall a b : Post,
    hasSortKey filters a -> hasSortKey filters b ->
    0 < comparePosts filters a b -> inOrder filters b a).
  { intros a b Ha Hb Hgt.
    destruct (comparePosts_answers filters a b Ha Hb) as [(H & _)|(_ & H)];
      [lia | assumption]. }
  assert (Hnz : forall a b : Post,
    hasSortKey filters a -> hasSortKey filters b -> comparePosts filters a b <> 0).
  { intros a b Ha Hb.
    destruct (comparePosts_answers filters a b Ha Hb) as [(H & _)|(H & _)]; lia. }
  split.
  - exact (SortProcedureFacts.timSortShort_sorted (comparePosts filters)
             (hasSortKey filters) (inOrder filters) Htrans Hneg Hpos Hnz
             filtered Hfiltered).
  - exact (SortProcedureFacts.insertionSort_sorted (comparePosts filters)
             (hasSortKey filters) (inOrder filters) Htrans Hneg Hpos Hnz
             filtered Hfiltered).
Qed.

Lemma filtered_posts_are_in_key_order_witness :
  StronglySorted (inOrder (mkFilters (Some ""%string) "all" "date" "desc"))
    (filteredPosts ArraySort.v8 (PaginationFacts.numberedPosts 5)
       (mkFilters (Some ""%string) "all" "date" "desc")).
Proof.
  refine (proj1 (@filtered_posts_are_in_key_order
                   (PaginationFacts.numberedPosts 5)
                   (mkFilters (Some ""%string) "all" "date" "desc") _)).
  repeat constructor; discriminate.
Defined.

End SortedPostsFacts.
